(** * Project.Beta: the relational schema of [src/backend/models.py]

    The module declares six SQLAlchemy models (users, profiles, admins,
    likes, matches, messages) and, when it is loaded, runs
    [Base.metadata.create_all(bind=engine)]. It holds no other code: what
    the declarations mean is what the database does with the tables they
    create.

    The development has these layers.
    - [Schema]: the declarations of models.py, column by column, together
      with the defaulting rules SQLAlchemy applies to a [Column] (what
      [nullable] and [autoincrement] mean when they are not given).
    - [Engine]: what the database behind [engine] does with such a schema:
      [create_all], [insert] and [delete_from], with the checks PostgreSQL
      runs, in the order it runs them (the comment on the last line of
      models.py names PostgreSQL as the target). NULL follows SQL: it
      equals nothing, satisfies a foreign key, and takes a row out of a
      uniqueness constraint.
    - [Orm] and [State]: the statements a client issues for each model, and
      the predicates on database states the properties are stated with.
    - [Relationships]: the joins the [relationship] declarations stand
      for, and the rows an attribute loads.
    - [Session]: what [session.delete] issues for a row of users.
    - the facts about the engine, the invariants of the reachable states
      (uniqueness constraints, referential integrity, typing), and the
      properties of the declared schema. *)

From stdpp Require Import base option list strings gmap fin_maps.
From Stdlib Require Import ZArith Lia.

Local Open Scope Z_scope.

(** ** Values and rows *)

#[global] Instance byte_eq_dec : EqDecision Byte.byte := Byte.byte_eq_dec.

(** The column types models.py imports from sqlalchemy. *)
Inductive TypeEngine :=
  | Integer | String | Text | Boolean | LargeBinary | TIMESTAMP.

#[global] Instance TypeEngine_eq_dec : EqDecision TypeEngine.
Proof. solve_decision. Defined.

(** A cell of a row. [VNull] is SQL's NULL (Python's [None]). *)
Inductive value :=
  | VNull
  | VInt (z : Z)
  | VStr (s : string)
  | VBool (b : bool)
  | VBytes (bs : list Byte.byte)
  | VTime (t : Z).

#[global] Instance value_eq_dec : EqDecision value.
Proof. solve_decision. Defined.

(** A row, and the keyword arguments of an INSERT, pair column names with
    values; [get] reads a column, an absent one reads as NULL. *)
Abbreviation row := (list (string * value)).

Fixpoint get (r : row) (c : string) : value :=
  match r with
  | [] => VNull
  | (k, v) :: r' => if String.eqb k c then v else get r' c
  end.

Fixpoint assigned (r : row) (c : string) : option value :=
  match r with
  | [] => None
  | (k, v) :: r' => if String.eqb k c then Some v else assigned r' c
  end.

(** SQL's [=] on two cells, read as a condition: NULL equals nothing, not
    even NULL. *)
Definition sql_eq (x y : value) : bool :=
  match x with
  | VNull => false
  | _ => bool_decide (x = y)
  end.

(** A value fits a column type; NULL fits every type (nullability is the
    business of the NOT NULL check). Values are not coerced: a column
    admits the values of its own type only. *)
Definition has_type (ty : TypeEngine) (v : value) : bool :=
  match v, ty with
  | VNull, _ => true
  | VInt _, Integer => true
  | VStr _, String | VStr _, Text => true
  | VBool _, Boolean => true
  | VBytes _, LargeBinary => true
  | VTime _, TIMESTAMP => true
  | _, _ => false
  end.

(** ** The schema layer: what models.py declares *)

Module Schema.

(** The referential actions of a foreign key that bear on a DELETE
    ([ondelete="NO ACTION"], [ondelete="CASCADE"]). *)
Inductive ReferentialAction := NoAction | Cascade.

(** [ForeignKey("users.id")]: the referenced table and column, and the
    [ondelete] keyword, [None] when it is not given. *)
Record ForeignKey := mkForeignKey {
  fk_table : string;
  fk_column : string;
  fk_ondelete : option ReferentialAction;
}.

(** The keyword arguments models.py passes to [Column]. *)
Inductive column_arg :=
  | primary_key (b : bool)
  | autoincrement (b : bool)
  | nullable (b : bool)
  | unique (b : bool)
  | index (b : bool)
  | default (v : value)
  | references (fk : ForeignKey).

(** A [Column] object. The optional fields are [None] when the keyword is
    not given: SQLAlchemy's [autoincrement="auto"] and its unset
    [nullable]. *)
Record Column := mkColumn {
  col_name : string;
  col_type : TypeEngine;
  col_primary_key : bool;
  col_autoincrement : option bool;
  col_nullable : option bool;
  col_unique : bool;
  col_index : bool;
  col_default : option value;
  col_foreign_key : option ForeignKey;
}.

Definition set_arg (c : Column) (a : column_arg) : Column :=
  match a with
  | primary_key b =>
      mkColumn (col_name c) (col_type c) b (col_autoincrement c) (col_nullable c)
               (col_unique c) (col_index c) (col_default c) (col_foreign_key c)
  | autoincrement b =>
      mkColumn (col_name c) (col_type c) (col_primary_key c) (Some b) (col_nullable c)
               (col_unique c) (col_index c) (col_default c) (col_foreign_key c)
  | nullable b =>
      mkColumn (col_name c) (col_type c) (col_primary_key c) (col_autoincrement c) (Some b)
               (col_unique c) (col_index c) (col_default c) (col_foreign_key c)
  | unique b =>
      mkColumn (col_name c) (col_type c) (col_primary_key c) (col_autoincrement c) (col_nullable c)
               b (col_index c) (col_default c) (col_foreign_key c)
  | index b =>
      mkColumn (col_name c) (col_type c) (col_primary_key c) (col_autoincrement c) (col_nullable c)
               (col_unique c) b (col_default c) (col_foreign_key c)
  | default v =>
      mkColumn (col_name c) (col_type c) (col_primary_key c) (col_autoincrement c) (col_nullable c)
               (col_unique c) (col_index c) (Some v) (col_foreign_key c)
  | references fk =>
      mkColumn (col_name c) (col_type c) (col_primary_key c) (col_autoincrement c) (col_nullable c)
               (col_unique c) (col_index c) (col_default c) (Some fk)
  end.

(** [column name ty args] is [name = Column(ty, args...)]. *)
Definition column (name : string) (ty : TypeEngine) (args : list column_arg) : Column :=
  foldl set_arg (mkColumn name ty false None None false false None None) args.

(** [ForeignKey("users.id")], with no [ondelete]. *)
Definition ForeignKey_ (table col : string) : column_arg :=
  references (mkForeignKey table col None).

(** [UniqueConstraint(columns..., name=...)] in [__table_args__]. *)
Record UniqueConstraint := mkUniqueConstraint {
  uc_columns : list string;
  uc_name : string;
}.

(** [relationship(target, back_populates=..., foreign_keys=...)]: an ORM
    attribute; it adds nothing to the table. *)
Record relationship := mkRelationship {
  rel_attr : string;
  rel_target : string;
  rel_back_populates : option string;
  rel_foreign_keys : list string;
}.

(** A declarative model: [__tablename__], the columns in the order they are
    declared, [__table_args__] and the relationships. *)
Record Table := mkTable {
  tablename : string;
  columns : list Column;
  table_args : list UniqueConstraint;
  relationships : list relationship;
}.

(** *** The six models *)

Definition User : Table :=
  mkTable "users"
    [ column "id" Integer [primary_key true; autoincrement false];
      column "email" String [nullable false];
      column "name" String [nullable false];
      column "password" String [nullable false];
      column "gender" String [];
      column "birth_date" TIMESTAMP [];
      column "preferences" String [];
      column "location" String [];
      column "age" Integer [] ]
    []
    [ mkRelationship "admin" "Admin" (Some "user") [];
      mkRelationship "profile" "Profile" (Some "user") [] ].

Definition Profile : Table :=
  mkTable "profiles"
    [ column "id" Integer [primary_key true; autoincrement true];
      column "user_id" Integer [ForeignKey_ "users" "id"; nullable false];
      column "photo" LargeBinary [nullable true];
      column "description" Text [nullable true];
      column "interests" Text [nullable true] ]
    []
    [ mkRelationship "user" "User" (Some "profile") [] ].

Definition Admin : Table :=
  mkTable "admins"
    [ column "id" Integer [primary_key true; autoincrement true];
      column "user_id" Integer [ForeignKey_ "users" "id"; nullable false; unique true];
      column "is_blocked" Boolean [default (VBool false)] ]
    []
    [ mkRelationship "user" "User" (Some "admin") [] ].

Definition Like : Table :=
  mkTable "likes"
    [ column "id" Integer [primary_key true; index true];
      column "user_id" Integer [ForeignKey_ "users" "id"];
      column "liked_user_id" Integer [ForeignKey_ "users" "id"] ]
    []
    [].

Definition Match : Table :=
  mkTable "matches"
    [ column "id" Integer [primary_key true; index true];
      column "user_id" Integer [ForeignKey_ "users" "id"];
      column "liked_user_id" Integer [ForeignKey_ "users" "id"] ]
    [ mkUniqueConstraint ["user_id"; "liked_user_id"] "unique_match" ]
    [].

Definition Message : Table :=
  mkTable "messages"
    [ column "id" Integer [primary_key true; index true];
      column "sender_id" Integer [ForeignKey_ "users" "id"];
      column "receiver_id" Integer [ForeignKey_ "users" "id"];
      column "message" String [] ]
    []
    [ mkRelationship "sender" "User" None ["sender_id"];
      mkRelationship "receiver" "User" None ["receiver_id"] ].

(** [Base.metadata]: the tables of every model that derives from [Base], in
    the order the classes are declared. *)
Definition metadata : list Table := [User; Profile; Admin; Like; Match; Message].

(** *** SQLAlchemy's reading of a column *)

(** [nullable] defaults to [not primary_key]; a primary-key column is NOT
    NULL in the emitted DDL whatever [nullable] says. *)
Definition is_nullable (c : Column) : bool :=
  negb (col_primary_key c) &&
  match col_nullable c with Some b => b | None => true end.

Definition primary_key_columns (t : Table) : list Column :=
  filter (λ c, col_primary_key c = true) (columns t).

(** The column that receives generated values
    ([PrimaryKeyConstraint._autoincrement_column]): a sole primary-key
    column with [autoincrement=True], or with the default ["auto"] when it
    is an integer with no default and no foreign key; in a composite key,
    the column that says [autoincrement=True]. The database generates the
    value (SERIAL) only when the column has no default of its own. *)
Definition auto_candidate (c : Column) : bool :=
  bool_decide (col_type c = Integer) &&
  bool_decide (col_default c = None) &&
  match col_autoincrement c with
  | Some b => b
  | None => bool_decide (col_foreign_key c = None)
  end.

Definition autoincrement_column (t : Table) : option string :=
  match primary_key_columns t with
  | [c] => if auto_candidate c then Some (col_name c) else None
  | pks =>
      col_name <$>
        head (filter (λ c, col_autoincrement c = Some true ∧ col_type c = Integer
                           ∧ col_default c = None) pks)
  end.

Definition is_serial (t : Table) (c : Column) : bool :=
  bool_decide (autoincrement_column t = Some (col_name c)).

(** The uniqueness constraints of the emitted CREATE TABLE, each with its
    name and its columns: the primary key, every [unique=True] column, and
    the [UniqueConstraint]s of [__table_args__]. *)
Definition unique_constraints (t : Table) : list (string * list string) :=
  match primary_key_columns t with
  | [] => []
  | pks => [(tablename t +:+ "_pkey", col_name <$> pks)]
  end
  ++ ((λ c, (tablename t +:+ "_" +:+ col_name c +:+ "_key", [col_name c])) <$>
        filter (λ c, col_unique c = true) (columns t))
  ++ ((λ u, (uc_name u, uc_columns u)) <$> table_args t).

(** The foreign keys of a table: referencing column and target. *)
Definition foreign_keys (t : Table) : list (string * ForeignKey) :=
  omap (λ c, (λ fk, (col_name c, fk)) <$> col_foreign_key c) (columns t).

(** Whether column [c] of the table admits NULL. *)
Definition nullable_in (t : Table) (c : string) : option bool :=
  is_nullable <$> find (λ col, String.eqb (col_name col) c) (columns t).

(** The columns of the schema that reference users.id, each with its table. *)
Definition user_references : list (string * string) :=
  t ← metadata;
  f ← foreign_keys t;
  if decide (fk_table (snd f) = "users" ∧ fk_column (snd f) = "id")
  then [(tablename t, fst f)] else [].

End Schema.

(** ** The engine layer: the database behind [engine] *)

Module Engine.
Import Schema.

(** Modelled from the spec: [engine] comes from the module [database]
    ([from database import *]), which is not part of the sources at hand.
    The one thing the spec leaves open about it is whether foreign keys are
    enforced ("if foreign-key enforcement is active"), so that is what an
    engine records. *)
Record Engine := mkEngine {
  fk_enforced : bool;
}.

(** A table of the database: the definition it was created with, its rows
    in insertion order, and the next value of the sequence behind its
    SERIAL column. *)
Record table_state := mkTableState {
  ts_def : Table;
  ts_rows : list row;
  ts_seq : Z;
}.

Abbreviation database := (gmap string table_state).

Definition rows_of (db : database) (t : string) : list row :=
  match db !! t with
  | Some ts => ts_rows ts
  | None => []
  end.

(** The errors of the database client, by SQLSTATE class. *)
Inductive error :=
  | UndefinedTable (t : string)
  | UndefinedColumn (t c : string)
  | DatatypeMismatch (t c : string)
  | SequenceExhausted (t : string)
  | NotNullViolation (t c : string)
  | UniqueViolation (constraint : string)
  | ForeignKeyViolation (t c : string)
  | OutOfFuel.

#[global] Instance error_eq_dec : EqDecision error.
Proof. solve_decision. Defined.

(** A statement either goes through or raises; in both cases it leaves a
    database behind (a failed INSERT does not give back the sequence value
    it drew). *)
Inductive result :=
  | Ok (db : database)
  | Failed (e : error) (db : database).

Definition state_after (r : result) : database :=
  match r with
  | Ok db => db
  | Failed _ db => db
  end.

(** *** [Base.metadata.create_all(bind=engine)] *)

(** CREATE TABLE behind [checkfirst=True], the default of [create_all]: a
    table whose name is already in the catalog is left alone. SQLAlchemy
    creates the tables in dependency order (users first); the names being
    distinct, the order does not show in the catalog. *)
Definition create_table (db : database) (t : Table) : database :=
  match db !! tablename t with
  | Some _ => db
  | None => <[tablename t := mkTableState t [] 1]> db
  end.

Definition create_all (md : list Table) (db : database) : database :=
  foldl create_table db md.

(** *** INSERT *)

Definition int4_max : Z := 2147483647.
Definition int4_min : Z := -2147483648.

(** An INTEGER column holds 32-bit values; the other types have no bound
    that matters here. *)
Definition fits (ty : TypeEngine) (v : value) : bool :=
  has_type ty v &&
  match v with
  | VInt z => (int4_min <=? z) && (z <=? int4_max)
  | _ => true
  end.

Definition column_names (t : Table) : list string := col_name <$> columns t.

(** The first keyword that names no column of the table. *)
Definition unknown_column (t : Table) (kw : row) : option string :=
  fst <$> find (λ a, negb (bool_decide (fst a ∈ column_names t))) kw.

(** The first column that is given a value its type does not admit. *)
Definition ill_typed (t : Table) (kw : row) : option string :=
  col_name <$>
    find (λ c, match assigned kw (col_name c) with
               | Some v => negb (fits (col_type c) v)
               | None => false
               end) (columns t).

(** The statement draws from the table's sequence: the SERIAL column is not
    given a value. *)
Definition uses_sequence (t : Table) (kw : row) : bool :=
  existsb (λ c, is_serial t c && bool_decide (assigned kw (col_name c) = None))
          (columns t).

(** The cell a new row gets in column [c]: the value given; else the next
    sequence value for the SERIAL column, the column's default, or NULL. *)
Definition new_cell (t : Table) (seq : Z) (kw : row) (c : Column) : value :=
  match assigned kw (col_name c) with
  | Some v => v
  | None =>
      if is_serial t c then VInt seq
      else match col_default c with
           | Some v => v
           | None => VNull
           end
  end.

Definition new_row (t : Table) (seq : Z) (kw : row) : row :=
  (λ c, (col_name c, new_cell t seq kw c)) <$> columns t.

(** The first NOT NULL column the row leaves NULL. *)
Definition null_violation (t : Table) (r : row) : option string :=
  col_name <$>
    find (λ c, negb (is_nullable c) && bool_decide (get r (col_name c) = VNull))
         (columns t).

(** Two rows collide on a list of columns when every one of them is equal
    in SQL's sense, so a NULL in any of them rules the collision out. *)
Definition agree (cols : list string) (r r' : row) : bool :=
  forallb (λ c, sql_eq (get r c) (get r' c)) cols.

(** The first uniqueness constraint on which the row collides with a row of
    the table. *)
Definition unique_violation (t : Table) (rows : list row) (r : row) : option string :=
  fst <$> find (λ u, existsb (agree (snd u) r) rows) (unique_constraints t).

(** A foreign-key cell is satisfied when it is NULL or some row of the
    referenced table has that value in the referenced column. *)
Definition fk_satisfied (db : database) (fk : ForeignKey) (v : value) : bool :=
  bool_decide (v = VNull) ||
  existsb (λ p, sql_eq v (get p (fk_column fk))) (rows_of db (fk_table fk)).

(** The first foreign-key column of the row that is not satisfied. *)
Definition fk_violation (db : database) (t : Table) (r : row) : option string :=
  fst <$> find (λ f, negb (fk_satisfied db (snd f) (get r (fst f)))) (foreign_keys t).

Section WithEngine.
Context (engine : Engine).

(** [INSERT INTO tname (kw...) VALUES (...)]. The checks come in
    PostgreSQL's order: the statement is analysed (table, columns, types),
    the defaults are computed (drawing the sequence value), then NOT NULL,
    then the unique indexes, then the foreign keys, which are checked at
    the end of the statement, against the table with the new row in it. A
    rejected statement leaves the rows as they were; the sequence value it
    drew is not given back. *)
Definition insert (db : database) (tname : string) (kw : row) : result :=
  match db !! tname with
  | None => Failed (UndefinedTable tname) db
  | Some ts =>
      let t := ts_def ts in
      match unknown_column t kw with
      | Some c => Failed (UndefinedColumn tname c) db
      | None =>
      match ill_typed t kw with
      | Some c => Failed (DatatypeMismatch tname c) db
      | None =>
      if uses_sequence t kw && (int4_max <? ts_seq ts)
      then Failed (SequenceExhausted tname) db
      else
      let r := new_row t (ts_seq ts) kw in
      let seq' := if uses_sequence t kw then ts_seq ts + 1 else ts_seq ts in
      let rejected := <[tname := mkTableState t (ts_rows ts) seq']> db in
      match null_violation t r with
      | Some c => Failed (NotNullViolation tname c) rejected
      | None =>
      match unique_violation t (ts_rows ts) r with
      | Some n => Failed (UniqueViolation n) rejected
      | None =>
      let accepted := <[tname := mkTableState t (ts_rows ts ++ [r]) seq']> db in
      match (if fk_enforced engine then fk_violation accepted t r else None) with
      | Some c => Failed (ForeignKeyViolation tname c) rejected
      | None => Ok accepted
      end end end end end
  end.

(** *** DELETE *)

(** The foreign keys of the whole catalog that point at table [tname]:
    referencing table, referencing column, and the key. *)
Definition referencing (db : database) (tname : string)
  : list (string * string * ForeignKey) :=
  p ← map_to_list db;
  f ← foreign_keys (ts_def (snd p));
  if decide (fk_table (snd f) = tname) then [(fst p, fst f, snd f)] else [].

(** A referencing row is left dangling by a DELETE when its key matched a
    deleted parent and matches none that remains. *)
Definition dangling (kept gone : list row) (c : string) (fk : ForeignKey)
  (r' : row) : bool :=
  existsb (λ g, sql_eq (get r' c) (get g (fk_column fk))) gone &&
  negb (existsb (λ k, sql_eq (get r' c) (get k (fk_column fk))) kept).

(** [DELETE FROM tname WHERE p]. With foreign keys enforced, every key
    that points at the table reacts as its [ondelete] says; a key without
    one gets SQL's NO ACTION, which rejects the statement when a
    referencing row would dangle. A rejected DELETE changes nothing. The
    fuel bounds the depth of a chain of cascades. *)
Fixpoint delete_from (fuel : nat) (db : database) (tname : string)
  (p : row → bool) : result :=
  match fuel with
  | O => Failed OutOfFuel db
  | S fuel' =>
      match db !! tname with
      | None => Failed (UndefinedTable tname) db
      | Some ts =>
          let gone := List.filter p (ts_rows ts) in
          let kept := List.filter (λ r, negb (p r)) (ts_rows ts) in
          let db1 := <[tname := mkTableState (ts_def ts) kept (ts_seq ts)]> db in
          if fk_enforced engine then
            let react (acc : result) (ref : string * string * ForeignKey) : result :=
              match acc with
              | Failed _ _ => acc
              | Ok db2 =>
                  let '(t', c, fk) := ref in
                  let hit := dangling kept gone c fk in
                  match fk_ondelete fk with
                  | None | Some NoAction =>
                      if existsb hit (rows_of db2 t')
                      then Failed (ForeignKeyViolation t' c) db
                      else Ok db2
                  | Some Cascade => delete_from fuel' db2 t' hit
                  end
              end in
            match foldl react (Ok db1) (referencing db tname) with
            | Ok db' => Ok db'
            | Failed e _ => Failed e db
            end
          else Ok db1
      end
  end.

(** *** Reachable states *)

(** One statement of a client: an INSERT, accepted or not, or an accepted
    DELETE. *)
Inductive step (db : database) : database → Prop :=
  | step_insert tname kw :
      step db (state_after (insert db tname kw))
  | step_delete fuel tname p db' :
      delete_from fuel db tname p = Ok db' → step db db'.

(** The states a client can bring about, starting from the empty database
    on which the module was loaded. *)
Inductive reachable : database → Prop :=
  | reachable_init : reachable (create_all metadata ∅)
  | reachable_step db db' : reachable db → step db db' → reachable db'.

End WithEngine.

(** The database an accepted INSERT leaves. *)
Definition accepted (db : database) (tname : string) (ts : table_state) (kw : row)
  : database :=
  <[tname := mkTableState (ts_def ts)
               (ts_rows ts ++ [new_row (ts_def ts) (ts_seq ts) kw])
               (if uses_sequence (ts_def ts) kw then ts_seq ts + 1 else ts_seq ts)]> db.

(** The checks of an INSERT that look at the statement and its table
    alone: the analysis, the sequence, NOT NULL. *)
Definition presentable (ts : table_state) (kw : row) : Prop :=
  unknown_column (ts_def ts) kw = None ∧
  ill_typed (ts_def ts) kw = None ∧
  uses_sequence (ts_def ts) kw && (int4_max <? ts_seq ts) = false ∧
  null_violation (ts_def ts) (new_row (ts_def ts) (ts_seq ts) kw) = None.

(** The database an accepted DELETE leaves when nothing cascades. *)
Definition after_delete (db : database) (tname : string) (ts : table_state)
  (p : row → bool) : database :=
  <[tname := mkTableState (ts_def ts) (List.filter (λ r, negb (p r)) (ts_rows ts))
               (ts_seq ts)]> db.

(** The first foreign key a DELETE would leave dangling. *)
Definition first_dangling (db : database) (tname : string) (ts : table_state)
  (p : row → bool) : option (string * string * ForeignKey) :=
  find (λ ref, existsb (dangling (List.filter (λ r, negb (p r)) (ts_rows ts))
                                 (List.filter p (ts_rows ts)) (ref.1.2) (ref.2))
                       (rows_of (after_delete db tname ts p) (ref.1.1)))
       (referencing db tname).

(** No foreign key of the catalog says [ondelete]. *)
Definition no_cascade (db : database) : Prop :=
  ∀ t ts f, db !! t = Some ts → f ∈ foreign_keys (ts_def ts) →
            fk_ondelete (snd f) = None.

End Engine.

(** ** Statements of a client *)

Module Orm.
Import Schema Engine.

(** A keyword argument that may be left out (Python's [None]). *)
Definition kwarg (k : string) (v : option value) : row :=
  match v with
  | Some x => [(k, x)]
  | None => []
  end.

(** The value a cell holds for an optional integer. *)
Definition cell (v : option Z) : value :=
  match v with
  | Some z => VInt z
  | None => VNull
  end.

(** The keyword arguments of [User(...)], [Profile(...)], and so on: one
    per attribute of the model, in the order of the columns. *)
Definition new_User (id : option Z) (email name password gender : option string)
  (birth_date : option Z) (preferences location : option string)
  (age : option Z) : row :=
  kwarg "id" (VInt <$> id) ++ kwarg "email" (VStr <$> email) ++
  kwarg "name" (VStr <$> name) ++ kwarg "password" (VStr <$> password) ++
  kwarg "gender" (VStr <$> gender) ++ kwarg "birth_date" (VTime <$> birth_date) ++
  kwarg "preferences" (VStr <$> preferences) ++ kwarg "location" (VStr <$> location) ++
  kwarg "age" (VInt <$> age).

Definition new_Profile (id user_id : option Z) (photo : option (list Byte.byte))
  (description interests : option string) : row :=
  kwarg "id" (VInt <$> id) ++ kwarg "user_id" (VInt <$> user_id) ++
  kwarg "photo" (VBytes <$> photo) ++ kwarg "description" (VStr <$> description) ++
  kwarg "interests" (VStr <$> interests).

Definition new_Admin (id user_id : option Z) (is_blocked : option bool) : row :=
  kwarg "id" (VInt <$> id) ++ kwarg "user_id" (VInt <$> user_id) ++
  kwarg "is_blocked" (VBool <$> is_blocked).

Definition new_Like (id user_id liked_user_id : option Z) : row :=
  kwarg "id" (VInt <$> id) ++ kwarg "user_id" (VInt <$> user_id) ++
  kwarg "liked_user_id" (VInt <$> liked_user_id).

Definition new_Match (id user_id liked_user_id : option Z) : row :=
  kwarg "id" (VInt <$> id) ++ kwarg "user_id" (VInt <$> user_id) ++
  kwarg "liked_user_id" (VInt <$> liked_user_id).

Definition new_Message (id sender_id receiver_id : option Z)
  (message : option string) : row :=
  kwarg "id" (VInt <$> id) ++ kwarg "sender_id" (VInt <$> sender_id) ++
  kwarg "receiver_id" (VInt <$> receiver_id) ++ kwarg "message" (VStr <$> message).

(** [DELETE FROM users WHERE id = u]. No foreign key of the schema
    cascades, so one unit of fuel is all the statement needs. *)
Definition delete_user (engine : Engine) (db : database) (u : Z) : result :=
  delete_from engine 1 db "users" (λ r, sql_eq (VInt u) (get r "id")).

End Orm.

(** ** Predicates on database states *)

Module State.
Import Schema Engine.

(** The catalog of a database: the definition of each of its tables. *)
Definition catalog (db : database) : gmap string Table := ts_def <$> db.

(** The database holds the six declared tables, as models.py declares
    them, and no other table. *)
Definition declared (db : database) : Prop :=
  catalog db = list_to_map ((λ t, (tablename t, t)) <$> metadata).

(** A 32-bit integer. *)
Definition int4 (z : Z) : Prop := int4_min ≤ z ≤ int4_max.

Definition int4_opt (v : option Z) : Prop :=
  match v with
  | Some z => int4 z
  | None => True
  end.

(** The id a new row of the table gets when the statement gives [id]: the
    one given, or else the next value of the table's sequence. *)
Definition row_id (ts : table_state) (id : option Z) : Z :=
  match id with
  | Some i => i
  | None => ts_seq ts
  end.

(** That id is a 32-bit integer no row of the table has yet. *)
Definition id_free (ts : table_state) (id : option Z) : Prop :=
  int4 (row_id ts id) ∧ ∀ r, r ∈ ts_rows ts → get r "id" ≠ VInt (row_id ts id).

(** An optional reference names an existing user (or is NULL). *)
Definition names_user (db : database) (v : option Z) : Prop :=
  match v with
  | Some z => ∃ u, u ∈ rows_of db "users" ∧ get u "id" = VInt z
  | None => True
  end.

(** No two rows of the list collide on the columns [cols]. *)
Fixpoint unique_on (cols : list string) (rows : list row) : Prop :=
  match rows with
  | [] => True
  | r :: rest => (∀ r', r' ∈ rest → agree cols r r' = false) ∧ unique_on cols rest
  end.

(** Every uniqueness constraint of every table holds. *)
Definition constraints_hold (db : database) : Prop :=
  ∀ t ts u, db !! t = Some ts → u ∈ unique_constraints (ts_def ts) →
            unique_on (snd u) (ts_rows ts).

(** The number of rows that hold [v] in column [c]. *)
Definition count_of (c : string) (v : value) (rows : list row) : nat :=
  length (List.filter (λ r, bool_decide (get r c = v)) rows).

(** The number of rows that hold the pair [(v1, v2)] in columns [c1], [c2]. *)
Definition count_pair (c1 c2 : string) (v1 v2 : value) (rows : list row) : nat :=
  length (List.filter (λ r, bool_decide (get r c1 = v1) && bool_decide (get r c2 = v2)) rows).

(** Every reference of every row is satisfied: it is NULL or names a row
    of the referenced table. *)
Definition references_hold (db : database) : Prop :=
  ∀ t ts f r, db !! t = Some ts → f ∈ foreign_keys (ts_def ts) → r ∈ ts_rows ts →
              fk_satisfied db (snd f) (get r (fst f)) = true.

(** A table definition the engine can work with: the column names are
    distinct, the SERIAL column is an integer, a default fits its column. *)
Definition table_ok (t : Table) : bool :=
  bool_decide (NoDup (column_names t)) &&
  forallb (λ c, implb (is_serial t c) (bool_decide (col_type c = Integer)) &&
                match col_default c with
                | Some v => fits (col_type c) v
                | None => true
                end) (columns t).

(** Every cell fits the type of its column. *)
Definition well_typed (db : database) : Prop :=
  ∀ t ts c r, db !! t = Some ts → c ∈ columns (ts_def ts) → r ∈ ts_rows ts →
              fits (col_type c) (get r (col_name c)) = true.

(** Sequences start at 1 and only grow. *)
Definition sequences_positive (db : database) : Prop :=
  ∀ t ts, db !! t = Some ts → 1 ≤ ts_seq ts.

(** No two rows of matches hold the same pair of non-NULL
    (user_id, liked_user_id). *)
Definition match_pairs_unique (db : database) : Prop :=
  ∀ a b, a ≠ VNull → b ≠ VNull →
         (count_pair "user_id" "liked_user_id" a b (rows_of db "matches") ≤ 1)%nat.

End State.

(** ** Sample states *)

Import Schema Engine Orm State.

Definition enforcing : Engine := mkEngine true.
Definition permissive : Engine := mkEngine false.

Definition alice : row :=
  new_User (Some 1) (Some "alice@example.org") (Some "Alice") (Some "secret")
           None None None None None.
Definition bob : row :=
  new_User (Some 2) (Some "bob@example.org") (Some "Bob") (Some "hidden")
           None None None None None.

(** A user row with no id. *)
Definition nameless : row :=
  new_User None (Some "carol@example.org") (Some "Carol") (Some "opaque")
           None None None None None.

(** The database right after the module is loaded on an empty one. *)
Definition fresh : database := create_all metadata ∅.

Definition with_user (engine : Engine) : database :=
  state_after (insert engine fresh "users" alice).

Definition two_users (engine : Engine) : database :=
  state_after (insert engine (with_user engine) "users" bob).

(** Alice matched with Bob, and then Bob with Alice as well. *)
Definition one_way (engine : Engine) : database :=
  state_after (insert engine (two_users engine) "matches"
                 (new_Match None (Some 1) (Some 2))).
Definition both_ways (engine : Engine) : database :=
  state_after (insert engine (one_way engine) "matches"
                 (new_Match None (Some 2) (Some 1))).

(** A match with no first user. *)
Definition half_match : database :=
  state_after (insert enforcing (two_users enforcing) "matches"
                 (new_Match None None (Some 2))).

(** Alice with a profile, and with two of them. *)
Definition with_profile (engine : Engine) : database :=
  state_after (insert engine (with_user engine) "profiles"
                 (new_Profile None (Some 1) None None None)).
Definition with_two_profiles (engine : Engine) : database :=
  state_after (insert engine (with_profile engine) "profiles"
                 (new_Profile None (Some 1) None None None)).

(** Alice, Bob and one like from Alice to Bob. *)
Definition liked_once : database :=
  state_after (insert enforcing (two_users enforcing) "likes"
                 (new_Like None (Some 1) (Some 2))).

(** Alice as an admin. *)
Definition with_admin : database :=
  state_after (insert enforcing (with_user enforcing) "admins"
                 (new_Admin None (Some 1) None)).

(** ** Further predicates on states, and the relationships *)

(** No NOT NULL column holds NULL. *)
Definition not_null_hold (db : database) : Prop :=
  ∀ t ts c r, db !! t = Some ts → c ∈ columns (ts_def ts) → is_nullable c = false →
              r ∈ ts_rows ts → get r (col_name c) ≠ VNull.

(** The tables whose id the database generates. *)
Definition serial_tables : list Table :=
  filter (λ t, autoincrement_column t = Some "id") metadata.

(** What SQLAlchemy makes of the [relationship] declarations: the join
    each one stands for, and the rows the attribute loads. *)
Module Relationships.

(** The two directions SQLAlchemy gives a relationship between two tables:
    the foreign key is on the other table (a collection of rows) or on
    this one (a single row). *)
Inductive direction := ONETOMANY | MANYTOONE.

(** The join of a relationship: its direction, the column read on the row
    at hand, and the column it is compared with on the other side. *)
Record join := mkJoin {
  j_direction : direction;
  j_local : string;
  j_remote : string;
}.

(** The classes that derive from [Base], by name: what the string argument
    of [relationship] is looked up in. *)
Definition registry : list (string * Table) :=
  [ ("User", User); ("Profile", Profile); ("Admin", Admin);
    ("Like", Like); ("Match", Match); ("Message", Message) ].

Definition class_of (name : string) : option Table :=
  snd <$> find (λ e, String.eqb (fst e) name) registry.

(** The joins the foreign keys between the two tables allow. A foreign key
    of the declaring class gives a many-to-one join, one of the target
    class a one-to-many join. [foreign_keys=[...]] names columns of the
    declaring class and keeps the joins over these only. *)
Definition candidate_joins (src tgt : Table) (rel : relationship) : list join :=
  (f ← foreign_keys src;
   if bool_decide (fk_table (snd f) = tablename tgt) &&
      (bool_decide (rel_foreign_keys rel = []) ||
       bool_decide (fst f ∈ rel_foreign_keys rel))
   then [mkJoin MANYTOONE (fst f) (fk_column (snd f))] else [])
  ++
  (f ← foreign_keys tgt;
   if bool_decide (fk_table (snd f) = tablename src) &&
      bool_decide (rel_foreign_keys rel = [])
   then [mkJoin ONETOMANY (fk_column (snd f)) (fst f)] else []).

(** Mapper configuration: the target class must exist and the join must be
    the only candidate (SQLAlchemy raises NoForeignKeysError or
    AmbiguousForeignKeysError otherwise). *)
Definition configure (src : Table) (rel : relationship) : option (Table * join) :=
  match class_of (rel_target rel) with
  | None => None
  | Some tgt =>
      match candidate_joins src tgt rel with
      | [j] => Some (tgt, j)
      | _ => None
      end
  end.

(** The rows the attribute loads for row [r] of the declaring class: the
    rows of the target table that the join pairs with [r]. *)
Definition load (db : database) (src : Table) (rel : relationship) (r : row)
  : list row :=
  match configure src rel with
  | Some (tgt, j) =>
      List.filter (λ q, sql_eq (get r (j_local j)) (get q (j_remote j)))
                  (rows_of db (tablename tgt))
  | None => []
  end.

(** The relationship a class declares under attribute [attr]. *)
Definition relationship_named (t : Table) (attr : string) : option relationship :=
  find (λ rel, String.eqb (rel_attr rel) attr) (relationships t).

End Relationships.

Import Relationships.

(** The rows stored for Alice and for her first profile. *)
Definition alice_row : row := new_row User 1 alice.
Definition profile_row : row := new_row Profile 1 (new_Profile None (Some 1) None None None).

(** What SQLAlchemy's unit of work does for [session.delete] on a row of
    users, given the relationships User declares. *)
Module Session.

(** The row with column [c] set to [v]. *)
Fixpoint put (r : row) (c : string) (v : value) : row :=
  match r with
  | [] => []
  | (k, x) :: r' => if String.eqb k c then (k, v) :: r' else (k, x) :: put r' c v
  end.

(** [UPDATE tname SET c = NULL WHERE p], the statement the unit of work
    issues for the rows it detaches from a parent. It is rejected, and
    changes nothing, when the column is NOT NULL and a row is selected. A
    NULL satisfies a foreign key and collides with nothing in a unique
    index, so no other check can fail. *)
Definition set_null (db : database) (tname c : string) (p : row → bool) : result :=
  match db !! tname with
  | None => Failed (UndefinedTable tname) db
  | Some ts =>
      match nullable_in (ts_def ts) c with
      | None => Failed (UndefinedColumn tname c) db
      | Some may_be_null =>
          if existsb p (ts_rows ts) && negb may_be_null
          then Failed (NotNullViolation tname c) db
          else Ok (<[tname := mkTableState (ts_def ts)
                                ((λ r, if p r then put r c VNull else r) <$> ts_rows ts)
                                (ts_seq ts)]> db)
      end
  end.

(** What deleting row [g] of class [src] does about one of its
    relationships. No relationship of models.py gives [cascade] or
    [passive_deletes], so the defaults apply: the rows a one-to-many
    attribute holds are detached, their foreign key set to NULL; a
    many-to-one attribute asks for nothing. *)
Definition detach (src : Table) (g : row) (acc : result) (rel : relationship)
  : result :=
  match acc with
  | Failed _ _ => acc
  | Ok db =>
      match configure src rel with
      | Some (tgt, j) =>
          match j_direction j with
          | ONETOMANY =>
              set_null db (tablename tgt) (j_remote j)
                       (λ q, sql_eq (get g (j_local j)) (get q (j_remote j)))
          | MANYTOONE => Ok db
          end
      | None => acc
      end
  end.

(** [session.delete(g); session.commit()] for a row [g] of users: the
    rows of User.admin and User.profile are detached, then the row is
    deleted with [DELETE FROM users WHERE id = ...]. The commit is one
    transaction: when one of its statements is rejected, nothing has
    changed. *)
Definition session_delete (engine : Engine) (db : database) (g : row) : result :=
  match foldl (detach User g) (Ok db) (relationships User) with
  | Failed e _ => Failed e db
  | Ok db1 =>
      match delete_from engine 1 db1 "users" (λ r, sql_eq (get g "id") (get r "id")) with
      | Ok db' => Ok db'
      | Failed e _ => Failed e db
      end
  end.

End Session.

Import Session.

(** Alice and a like of hers for herself, on an engine that does not
    enforce foreign keys. *)
Definition self_liked : database :=
  state_after (insert permissive (with_user permissive) "likes"
                 (new_Like None (Some 1) (Some 1))).

(** ** Facts about values and lists of rows *)

Ltac solve_in :=
  unfold metadata; repeat first [apply list_elem_of_here | apply list_elem_of_further].

Ltac int4_tac := cbv [int4_opt int4 int4_min int4_max row_id ts_seq]; lia.

Lemma sql_eq_sym x y : sql_eq x y = sql_eq y x.
Proof.
  destruct x, y; simpl; try done;
    apply bool_decide_ext; split; congruence.
Qed.

Lemma sql_eq_true x y : sql_eq x y = true ↔ x ≠ VNull ∧ x = y.
Proof.
  destruct x; simpl;
    [ split; [done | by intros [? _]]
    | rewrite bool_decide_eq_true; split; [by intros <- | by intros [_ <-]] .. ].
Qed.

Lemma agree_sym cols r r' : agree cols r r' = agree cols r' r.
Proof.
  unfold agree. induction cols as [|c cols IH]; simpl; [done|].
  by rewrite IH, sql_eq_sym.
Qed.

Lemma fits_int4 z : int4 z → fits Integer (VInt z) = true.
Proof.
  unfold int4, fits. intros [H1 H2]. simpl.
  apply andb_true_iff. split; by apply Z.leb_le.
Qed.

Lemma not_exhausted z : int4 z → (int4_max <? z) = false.
Proof. intros [_ H]. by apply Z.ltb_ge. Qed.

(** Discharges a check of a statement built from optional arguments. *)
Ltac stage :=
  repeat match goal with
         | v : option _ |- _ => destruct v
         end;
  simpl in *;
  repeat (rewrite fits_int4 by assumption; simpl);
  try reflexivity.

Lemma table_state_eta ts : mkTableState (ts_def ts) (ts_rows ts) (ts_seq ts) = ts.
Proof. by destruct ts. Qed.

(** *** Pairwise distinctness *)

Lemma unique_on_snoc cols rows r :
  unique_on cols rows → (∀ r', r' ∈ rows → agree cols r r' = false) →
  unique_on cols (rows ++ [r]).
Proof.
  induction rows as [|r0 rows IH]; simpl; intros Hu Hr.
  - split; [|done]. intros r' []%not_elem_of_nil.
  - destruct Hu as [Hr0 Hu]. split.
    + intros r' [Hin| ->%list_elem_of_singleton]%elem_of_app; [by apply Hr0|].
      rewrite agree_sym. apply Hr, list_elem_of_here.
    + apply IH; [done|]. intros r' Hin. by apply Hr, list_elem_of_further.
Qed.

Lemma unique_on_filter cols (p : row → bool) rows :
  unique_on cols rows → unique_on cols (List.filter p rows).
Proof.
  induction rows as [|r0 rows IH]; simpl; [done|]. intros [Hr0 Hu].
  destruct (p r0); simpl; [split|]; auto.
  intros r' Hin. apply Hr0.
  apply list_elem_of_In, filter_In in Hin as [Hin _]. by apply list_elem_of_In.
Qed.

(** From pairwise distinctness to counting, and back. *)
Lemma unique_on_count c v rows :
  v ≠ VNull → unique_on [c] rows → (count_of c v rows ≤ 1)%nat.
Proof.
  intros Hv. unfold count_of. induction rows as [|r rows IH]; simpl; [lia|].
  intros [Hr Hu]. specialize (IH Hu). case_bool_decide as Hc; simpl; [|done].
  assert (List.filter (λ r0, bool_decide (get r0 c = v)) rows = []) as ->; [|simpl; lia].
  clear IH. induction rows as [|r' rows IH]; simpl; [done|].
  destruct Hu as [_ Hu]. rewrite IH; [|intros; apply Hr; by apply list_elem_of_further|done].
  specialize (Hr r' (list_elem_of_here _ _)). unfold agree in Hr. simpl in Hr.
  rewrite andb_true_r in Hr. case_bool_decide as Hc'; [|done].
  assert (sql_eq (get r c) (get r' c) = true) as Heq; [|congruence].
  apply sql_eq_true. split; congruence.
Qed.

Lemma unique_on_count_pair c1 c2 v1 v2 rows :
  v1 ≠ VNull → v2 ≠ VNull → unique_on [c1; c2] rows →
  (count_pair c1 c2 v1 v2 rows ≤ 1)%nat.
Proof.
  intros Hv1 Hv2. unfold count_pair.
  induction rows as [|r rows IH]; simpl; [lia|].
  intros [Hr Hu]. specialize (IH Hu).
  destruct (bool_decide (get r c1 = v1) && bool_decide (get r c2 = v2)) eqn:Hc;
    simpl; [|done].
  apply andb_true_iff in Hc as [Hc1%bool_decide_eq_true Hc2%bool_decide_eq_true].
  assert (List.filter (λ r0, bool_decide (get r0 c1 = v1) && bool_decide (get r0 c2 = v2))
            rows = []) as ->; [|simpl; lia].
  clear IH. induction rows as [|r' rows IH]; simpl; [done|].
  destruct Hu as [_ Hu]. rewrite IH; [|intros; apply Hr; by apply list_elem_of_further|done].
  specialize (Hr r' (list_elem_of_here _ _)). unfold agree in Hr. simpl in Hr.
  rewrite andb_true_r in Hr.
  destruct (bool_decide (get r' c1 = v1) && bool_decide (get r' c2 = v2)) eqn:Hc'; [|done].
  apply andb_true_iff in Hc' as [Hc1'%bool_decide_eq_true Hc2'%bool_decide_eq_true].
  assert (sql_eq (get r c1) (get r' c1) && sql_eq (get r c2) (get r' c2) = true)
    as Heq; [|congruence].
  apply andb_true_iff. split; apply sql_eq_true; split; congruence.
Qed.

Lemma count_pair_app c1 c2 v1 v2 l1 l2 :
  count_pair c1 c2 v1 v2 (l1 ++ l2) =
  (count_pair c1 c2 v1 v2 l1 + count_pair c1 c2 v1 v2 l2)%nat.
Proof. unfold count_pair. by rewrite List.filter_app, length_app. Qed.

Lemma count_pair_ge_1 c1 c2 (r0 : row) rows :
  r0 ∈ rows → (1 ≤ count_pair c1 c2 (get r0 c1) (get r0 c2) rows)%nat.
Proof.
  intros Hin. unfold count_pair.
  assert (In r0 (List.filter (λ r, bool_decide (get r c1 = get r0 c1) &&
                                   bool_decide (get r c2 = get r0 c2)) rows)) as Hf.
  { apply filter_In. split; [by apply list_elem_of_In|].
    by rewrite !bool_decide_eq_true_2. }
  destruct (List.filter _ rows); [done|simpl; lia].
Qed.

Lemma count_pair_unique_on c1 c2 rows :
  (∀ v1 v2, v1 ≠ VNull → v2 ≠ VNull → (count_pair c1 c2 v1 v2 rows ≤ 1)%nat) →
  unique_on [c1; c2] rows.
Proof.
  induction rows as [|r rows IH]; [done|]. intros Hc. split.
  - intros r' Hin. apply not_true_is_false. intros Hag.
    unfold agree in Hag. simpl in Hag. rewrite andb_true_r in Hag.
    apply andb_true_iff in Hag as [[Hn1 He1]%sql_eq_true [Hn2 He2]%sql_eq_true].
    specialize (Hc _ _ Hn1 Hn2). unfold count_pair in Hc. simpl in Hc.
    rewrite !bool_decide_eq_true_2 in Hc by done. simpl in Hc.
    apply list_elem_of_In in Hin.
    assert (In r' (List.filter (λ r0, bool_decide (get r0 c1 = get r c1) &&
                                      bool_decide (get r0 c2 = get r c2)) rows)) as Hf.
    { apply filter_In. split; [done|]. by rewrite !bool_decide_eq_true_2. }
    destruct (List.filter _ rows); [done|simpl in Hc; lia].
  - apply IH. intros v1 v2 Hv1 Hv2. specialize (Hc v1 v2 Hv1 Hv2).
    unfold count_pair in *. simpl in Hc. destruct (_ && _); simpl in Hc; lia.
Qed.

(** ** Facts about the checks of an INSERT *)

Lemma unique_violation_None t rows r u r' :
  unique_violation t rows r = None → u ∈ unique_constraints t → r' ∈ rows →
  agree (snd u) r r' = false.
Proof.
  unfold unique_violation. intros Hnone Hu Hr'.
  destruct (find _ _) eqn:Hf; [discriminate|].
  apply find_none with (x := u) in Hf; [|by apply list_elem_of_In].
  apply not_true_is_false. intros Hag. apply not_true_iff_false in Hf. apply Hf.
  apply existsb_exists. exists r'. split; [by apply list_elem_of_In|done].
Qed.

Lemma unique_violation_Some t rows r u r' :
  u ∈ unique_constraints t → r' ∈ rows → agree (snd u) r r' = true →
  ∃ n, unique_violation t rows r = Some n.
Proof.
  unfold unique_violation. intros Hu Hr' Hag.
  destruct (find _ _) as [u'|] eqn:Hf; [by eexists|].
  apply find_none with (x := u) in Hf; [|by apply list_elem_of_In].
  apply not_true_iff_false in Hf. destruct Hf.
  apply existsb_exists. exists r'. split; [by apply list_elem_of_In|done].
Qed.

Lemma unique_violation_None_intro t rows r :
  (∀ u r', u ∈ unique_constraints t → r' ∈ rows → agree (snd u) r r' = false) →
  unique_violation t rows r = None.
Proof.
  intros H. unfold unique_violation.
  destruct (find _ _) as [u|] eqn:Hf; [|done].
  apply find_some in Hf as [Hin Hex].
  apply existsb_exists in Hex as (r' & Hr' & Hag).
  rewrite H in Hag; [done|by apply list_elem_of_In..].
Qed.

Lemma fk_violation_None_intro db t r :
  (∀ f, f ∈ foreign_keys t → fk_satisfied db (snd f) (get r (fst f)) = true) →
  fk_violation db t r = None.
Proof.
  intros H. unfold fk_violation.
  destruct (find _ _) as [f|] eqn:Hf; [|done].
  apply find_some in Hf as [Hin Hex]. rewrite H in Hex; [done|by apply list_elem_of_In].
Qed.

Lemma fk_violation_Some db t r f :
  f ∈ foreign_keys t → fk_satisfied db (snd f) (get r (fst f)) = false →
  ∃ c, fk_violation db t r = Some c.
Proof.
  intros Hin Hf. unfold fk_violation.
  destruct (find _ _) as [f'|] eqn:Hfind; [by eexists|].
  apply find_none with (x := f) in Hfind; [|by apply list_elem_of_In].
  by rewrite Hf in Hfind.
Qed.

Lemma rows_of_accepted db tname ts kw :
  rows_of (accepted db tname ts kw) tname =
  ts_rows ts ++ [new_row (ts_def ts) (ts_seq ts) kw].
Proof. unfold rows_of, accepted. by rewrite lookup_insert_eq. Qed.

Lemma rows_of_accepted_ne db tname ts kw t' :
  t' ≠ tname → rows_of (accepted db tname ts kw) t' = rows_of db t'.
Proof. intros Hne. unfold rows_of, accepted. by rewrite lookup_insert_ne. Qed.

Section InsertFacts.
Context (engine : Engine).

(** What an accepted INSERT has passed and what it leaves. *)
Lemma insert_Ok_inv db tname kw db' :
  insert engine db tname kw = Ok db' →
  ∃ ts, db !! tname = Some ts ∧
    db' = accepted db tname ts kw ∧
    unknown_column (ts_def ts) kw = None ∧
    ill_typed (ts_def ts) kw = None ∧
    null_violation (ts_def ts) (new_row (ts_def ts) (ts_seq ts) kw) = None ∧
    unique_violation (ts_def ts) (ts_rows ts) (new_row (ts_def ts) (ts_seq ts) kw) = None ∧
    (fk_enforced engine = true →
     fk_violation db' (ts_def ts) (new_row (ts_def ts) (ts_seq ts) kw) = None).
Proof.
  unfold insert, accepted. intros H.
  destruct (db !! tname) as [ts|] eqn:Hts; [|discriminate].
  exists ts. split; [done|].
  destruct (unknown_column _ _); [discriminate|].
  destruct (ill_typed _ _); [discriminate|].
  destruct (uses_sequence _ _ && _); [discriminate|].
  destruct (null_violation _ _); [discriminate|].
  destruct (unique_violation _ _ _); [discriminate|].
  destruct (fk_enforced engine) eqn:Hfk.
  - destruct (fk_violation _ _ _) eqn:Hv; [discriminate|].
    injection H as <-. by rewrite Hv.
  - injection H as <-. repeat split; done.
Qed.

(** A rejected INSERT leaves the database as it was, but for the sequence
    of its table. *)
Lemma insert_Failed_inv db tname kw e db' :
  insert engine db tname kw = Failed e db' →
  db' = db ∨
  ∃ ts seq', db !! tname = Some ts ∧
             db' = <[tname := mkTableState (ts_def ts) (ts_rows ts) seq']> db.
Proof.
  unfold insert. intros H.
  destruct (db !! tname) as [ts|] eqn:Hts; [|injection H as _ <-; by left].
  destruct (unknown_column _ _); [injection H as _ <-; by left|].
  destruct (ill_typed _ _); [injection H as _ <-; by left|].
  destruct (uses_sequence _ _ && _); [injection H as _ <-; by left|].
  right. exists ts. eexists. split; [done|].
  destruct (null_violation _ _); [by injection H as _ <-|].
  destruct (unique_violation _ _ _); [by injection H as _ <-|].
  destruct (if fk_enforced engine then _ else _); [by injection H as _ <-|discriminate].
Qed.

Lemma insert_Failed_rows db tname kw e db' t' :
  insert engine db tname kw = Failed e db' → rows_of db' t' = rows_of db t'.
Proof.
  intros [->|(ts & seq' & Hts & ->)]%insert_Failed_inv; [done|].
  unfold rows_of. destruct (decide (tname = t')) as [<-|Hne].
  - by rewrite lookup_insert_eq, Hts.
  - by rewrite lookup_insert_ne.
Qed.

Lemma insert_rows_other db tname kw t' :
  t' ≠ tname → rows_of (state_after (insert engine db tname kw)) t' = rows_of db t'.
Proof.
  intros Hne. destruct (insert engine db tname kw) as [db'|e db'] eqn:H; simpl.
  - apply insert_Ok_inv in H as (ts & Hts & -> & _).
    by apply rows_of_accepted_ne.
  - by eapply insert_Failed_rows.
Qed.

Lemma insert_catalog db tname kw :
  catalog (state_after (insert engine db tname kw)) = catalog db.
Proof.
  unfold catalog.
  destruct (insert engine db tname kw) as [db'|e db'] eqn:H; simpl.
  - apply insert_Ok_inv in H as (ts & Hts & -> & _). unfold accepted.
    rewrite fmap_insert. simpl. apply insert_id. by rewrite lookup_fmap, Hts.
  - apply insert_Failed_inv in H as [->|(ts & seq' & Hts & ->)]; [done|].
    rewrite fmap_insert. simpl. apply insert_id. by rewrite lookup_fmap, Hts.
Qed.

Lemma insert_Ok_intro db tname ts kw :
  db !! tname = Some ts → presentable ts kw →
  unique_violation (ts_def ts) (ts_rows ts) (new_row (ts_def ts) (ts_seq ts) kw) = None →
  (fk_enforced engine = true →
   fk_violation (accepted db tname ts kw) (ts_def ts)
                (new_row (ts_def ts) (ts_seq ts) kw) = None) →
  insert engine db tname kw = Ok (accepted db tname ts kw).
Proof.
  intros Hts (H1 & H2 & H3 & H4) H5 H6. unfold insert.
  rewrite Hts, H1, H2, H3, H4, H5. fold (accepted db tname ts kw).
  destruct (fk_enforced engine); [by rewrite H6|done].
Qed.

(** A row that collides with a row of the table is never accepted, and
    when the statement is presentable the error is a unique violation. *)
Lemma insert_collision db tname ts kw u r0 :
  db !! tname = Some ts → u ∈ unique_constraints (ts_def ts) → r0 ∈ ts_rows ts →
  agree (snd u) (new_row (ts_def ts) (ts_seq ts) kw) r0 = true →
  ∃ e db', insert engine db tname kw = Failed e db' ∧
           (presentable ts kw → ∃ n, e = UniqueViolation n).
Proof.
  intros Hts Hu Hr0 Hag.
  destruct (unique_violation_Some _ _ _ _ _ Hu Hr0 Hag) as [n Hn].
  unfold insert, presentable. rewrite Hts.
  destruct (unknown_column _ _); [do 2 eexists; split; [done|by intros [? _]]|].
  destruct (ill_typed _ _); [do 2 eexists; split; [done|by intros (_ & ? & _)]|].
  destruct (uses_sequence _ _ && _); [do 2 eexists; split; [done|by intros (_ & _ & ? & _)]|].
  destruct (null_violation _ _); [do 2 eexists; split; [done|by intros (_ & _ & _ & ?)]|].
  rewrite Hn. do 2 eexists; split; [done|]. eauto.
Qed.

(** The checks that come before the foreign keys do not depend on the
    engine: a statement that an engine without enforcement accepts is, with
    enforcement, accepted or rejected on a foreign key. *)
Lemma insert_fk_rejected db tname ts kw f :
  fk_enforced engine = true →
  db !! tname = Some ts → f ∈ foreign_keys (ts_def ts) →
  fk_satisfied (accepted db tname ts kw) (snd f)
               (get (new_row (ts_def ts) (ts_seq ts) kw) (fst f)) = false →
  ∃ e db', insert engine db tname kw = Failed e db' ∧
           (∀ db'', insert (mkEngine false) db tname kw = Ok db'' →
                    ∃ c, e = ForeignKeyViolation tname c).
Proof.
  intros Hen Hts Hf Hsat.
  destruct (fk_violation_Some _ _ _ _ Hf Hsat) as [c Hc].
  unfold insert. rewrite Hts, Hen. simpl.
  destruct (unknown_column _ _); [do 2 eexists; split; [done|discriminate]|].
  destruct (ill_typed _ _); [do 2 eexists; split; [done|discriminate]|].
  destruct (uses_sequence _ _ && _); [do 2 eexists; split; [done|discriminate]|].
  destruct (null_violation _ _); [do 2 eexists; split; [done|discriminate]|].
  destruct (unique_violation _ _ _); [do 2 eexists; split; [done|discriminate]|].
  fold (accepted db tname ts kw). rewrite Hc. do 2 eexists; split; [done|]. eauto.
Qed.

End InsertFacts.

(** ** Facts about DELETE *)

Lemma elem_of_referencing db tname t' c fk :
  (t', c, fk) ∈ referencing db tname ↔
  ∃ ts', db !! t' = Some ts' ∧ (c, fk) ∈ foreign_keys (ts_def ts') ∧ fk_table fk = tname.
Proof.
  unfold referencing. rewrite list_elem_of_bind. split.
  - intros ([n ts'] & Hin & Hp). apply list_elem_of_bind in Hin as ([c' fk'] & Hin & Hf).
    simpl in *. case_decide; [|by apply not_elem_of_nil in Hin].
    apply list_elem_of_singleton in Hin. injection Hin as -> -> ->.
    apply elem_of_map_to_list in Hp. eauto.
  - intros (ts' & Hts' & Hf & Ht). exists (t', ts'). split.
    + apply list_elem_of_bind. exists (c, fk). split; [|done].
      simpl. rewrite decide_True by done. apply list_elem_of_singleton. done.
    + by apply elem_of_map_to_list.
Qed.

Section DeleteFacts.
Context (engine : Engine).

(** Where no foreign key cascades, a DELETE with fuel goes through as it
    stands or is rejected on the first dangling key. *)
Lemma delete_from_no_cascade n db tname p :
  no_cascade db →
  delete_from engine (S n) db tname p =
  match db !! tname with
  | None => Failed (UndefinedTable tname) db
  | Some ts =>
      if fk_enforced engine then
        match first_dangling db tname ts p with
        | Some ref => Failed (ForeignKeyViolation (ref.1.1) (ref.1.2)) db
        | None => Ok (after_delete db tname ts p)
        end
      else Ok (after_delete db tname ts p)
  end.
Proof.
  intros Hnc. simpl. destruct (db !! tname) as [ts|] eqn:Hts; [|done].
  destruct (fk_enforced engine); [|done].
  unfold first_dangling. fold (after_delete db tname ts p).
  assert (Hall : ∀ ref, ref ∈ referencing db tname → fk_ondelete (ref.2) = None).
  { intros [[t' c] fk] (ts' & Hts' & Hf & _)%elem_of_referencing.
    exact (Hnc _ _ _ Hts' Hf). }
  revert Hall. generalize (referencing db tname) as refs.
  induction refs as [|[[t' c] fk] refs IH]; intros Hall; [done|].
  pose proof (Hall (t', c, fk) (list_elem_of_here _ _)) as Hfk.
  simpl in Hfk |- *. rewrite Hfk.
  destruct (existsb _ _) eqn:Hex.
  - clear. induction refs as [|[[t'' c''] fk''] refs IH]; [done|]. simpl. apply IH.
  - apply IH. intros ref Href. apply Hall. by apply list_elem_of_further.
Qed.

Lemma delete_Ok_inv n db tname p db' :
  no_cascade db → delete_from engine (S n) db tname p = Ok db' →
  ∃ ts, db !! tname = Some ts ∧ db' = after_delete db tname ts p ∧
        (fk_enforced engine = true → first_dangling db tname ts p = None).
Proof.
  intros Hnc. rewrite delete_from_no_cascade by done.
  destruct (db !! tname) as [ts|]; [|discriminate]. intros H. exists ts.
  destruct (fk_enforced engine).
  - destruct (first_dangling _ _ _ _); [discriminate|]. by injection H as <-.
  - by injection H as <-.
Qed.

Lemma delete_Ok_fuel fuel db tname p db' :
  delete_from engine fuel db tname p = Ok db' → ∃ n, fuel = S n.
Proof. destruct fuel; [discriminate|eauto]. Qed.

End DeleteFacts.

Lemma first_dangling_Some db tname ts p t' ts' c fk r' :
  db !! t' = Some ts' → t' ≠ tname → (c, fk) ∈ foreign_keys (ts_def ts') →
  fk_table fk = tname → r' ∈ ts_rows ts' →
  dangling (List.filter (λ r, negb (p r)) (ts_rows ts)) (List.filter p (ts_rows ts))
           c fk r' = true →
  ∃ ref, first_dangling db tname ts p = Some ref.
Proof.
  intros Hts' Hne Hf Htab Hr' Hd. unfold first_dangling.
  destruct (find _ _) as [ref|] eqn:Hfind; [by eexists|].
  apply find_none with (x := (t', c, fk)) in Hfind.
  - simpl in Hfind. apply not_true_iff_false in Hfind. destruct Hfind.
    apply existsb_exists. exists r'. split; [|done].
    apply list_elem_of_In. unfold rows_of, after_delete.
    by rewrite lookup_insert_ne, Hts'.
  - apply list_elem_of_In, elem_of_referencing. eauto.
Qed.

(** ** Facts about [create_all] *)

Lemma create_table_lookup_Some db t n ts :
  db !! n = Some ts → create_table db t !! n = Some ts.
Proof.
  intros Hn. unfold create_table. destruct (db !! tablename t) eqn:Ht; [done|].
  rewrite lookup_insert_ne; [done|]. intros <-. congruence.
Qed.

Lemma create_all_lookup_Some md db n ts :
  db !! n = Some ts → create_all md db !! n = Some ts.
Proof.
  unfold create_all. revert db. induction md as [|t md IH]; intros db Hn; [done|].
  simpl. by apply IH, create_table_lookup_Some.
Qed.

Lemma create_table_exists db t : is_Some (create_table db t !! tablename t).
Proof.
  unfold create_table. destruct (db !! tablename t) eqn:Ht.
  - rewrite Ht. eauto.
  - rewrite lookup_insert_eq. eauto.
Qed.

Lemma create_all_exists md db t :
  t ∈ md → is_Some (create_all md db !! tablename t).
Proof.
  unfold create_all. revert db. induction md as [|t0 md IH]; intros db Hin.
  - by apply not_elem_of_nil in Hin.
  - simpl. apply elem_of_cons in Hin as [->|Hin]; [|by apply IH].
    destruct (create_table_exists db t0) as [ts Hts].
    exists ts. by apply (create_all_lookup_Some md).
Qed.

Lemma create_all_present md db :
  (∀ t, t ∈ md → is_Some (db !! tablename t)) → create_all md db = db.
Proof.
  unfold create_all. revert db. induction md as [|t md IH]; intros db Hall; [done|].
  simpl. assert (create_table db t = db) as ->.
  { unfold create_table. destruct (Hall t (list_elem_of_here _ _)) as [ts ->]. done. }
  apply IH. intros t' Hin. by apply Hall, list_elem_of_further.
Qed.

Lemma create_all_twice md db : create_all md (create_all md db) = create_all md db.
Proof. apply create_all_present. intros t Hin. by apply create_all_exists. Qed.

(** A table [create_all] adds is the declared one, empty, with a fresh
    sequence. *)
Lemma create_table_lookup_inv db t n ts :
  create_table db t !! n = Some ts →
  db !! n = Some ts ∨ (db !! n = None ∧ n = tablename t ∧ ts = mkTableState t [] 1).
Proof.
  unfold create_table. destruct (db !! tablename t) eqn:Ht; [by left|].
  destruct (decide (tablename t = n)) as [<-|Hne].
  - rewrite lookup_insert_eq. intros [= <-]. by right.
  - rewrite lookup_insert_ne by done. by left.
Qed.

Lemma create_all_lookup_inv md db n ts :
  create_all md db !! n = Some ts →
  db !! n = Some ts ∨
  (db !! n = None ∧ ∃ t, t ∈ md ∧ n = tablename t ∧ ts = mkTableState t [] 1).
Proof.
  unfold create_all. revert db. induction md as [|t md IH]; intros db Hn; [by left|].
  simpl in Hn. apply IH in Hn as [Hn|(Hnone & t' & Hin & -> & ->)].
  - apply create_table_lookup_inv in Hn as [Hn|(Hnone & -> & ->)]; [by left|].
    right. split; [done|]. exists t. split; [apply list_elem_of_here|done].
  - destruct (db !! tablename t') as [ts'|] eqn:Hdb.
    + by rewrite (create_table_lookup_Some _ _ _ _ Hdb) in Hnone.
    + right. split; [done|]. exists t'. split; [by apply list_elem_of_further|done].
Qed.

(** ** The declared catalog and the states a client can reach *)

Lemma declared_fresh : declared fresh.
Proof. vm_compute. reflexivity. Qed.

Lemma declared_lookup db n ts :
  declared db → db !! n = Some ts → ts_def ts ∈ metadata ∧ tablename (ts_def ts) = n.
Proof.
  intros Hd Hn.
  assert (catalog db !! n = Some (ts_def ts)) as Hc.
  { unfold catalog. by rewrite lookup_fmap, Hn. }
  rewrite Hd in Hc. apply elem_of_list_to_map_2 in Hc.
  apply list_elem_of_fmap in Hc as (t & [= -> ->] & Hin). done.
Qed.

Lemma declared_table db t :
  declared db → t ∈ metadata → ∃ ts, db !! tablename t = Some ts ∧ ts_def ts = t.
Proof.
  intros Hd Hin.
  assert (catalog db !! tablename t = Some t) as Hc.
  { rewrite Hd. unfold metadata in *.
    repeat (apply elem_of_cons in Hin as [->|Hin]; [vm_compute; reflexivity|]).
    by apply not_elem_of_nil in Hin. }
  unfold catalog in Hc. rewrite lookup_fmap in Hc.
  destruct (db !! tablename t) as [ts|]; [|discriminate].
  injection Hc as <-. eauto.
Qed.

Lemma declared_def db t ts :
  declared db → t ∈ metadata → db !! tablename t = Some ts → ts_def ts = t.
Proof.
  intros Hd Hin Hts. destruct (declared_table _ _ Hd Hin) as (ts' & Hts' & <-).
  congruence.
Qed.

(** No [ForeignKey] of models.py says [ondelete]. *)
Lemma metadata_no_ondelete t f :
  t ∈ metadata → f ∈ foreign_keys t → fk_ondelete (snd f) = None.
Proof.
  intros Hin. unfold metadata in Hin.
  repeat (apply elem_of_cons in Hin as [->|Hin];
          [vm_compute; intros Hf;
           repeat (apply elem_of_cons in Hf as [->|Hf]; [reflexivity|]);
           by apply not_elem_of_nil in Hf|]).
  by apply not_elem_of_nil in Hin.
Qed.

Lemma declared_no_cascade db : declared db → no_cascade db.
Proof.
  intros Hd t ts f Hts Hf. apply (declared_lookup _ _ _ Hd) in Hts as [Hin _].
  by eapply metadata_no_ondelete.
Qed.

(** A column that references users.id belongs to a table other than users,
    which the database holds. *)
Lemma user_reference_inv db tname c :
  declared db → (tname, c) ∈ user_references →
  tname ≠ "users" ∧
  ∃ ts, db !! tname = Some ts ∧
        (c, mkForeignKey "users" "id" None) ∈ foreign_keys (ts_def ts).
Proof.
  intros Hd Hin. vm_compute in Hin.
  repeat (apply elem_of_cons in Hin as [Hin|Hin]);
    [injection Hin as -> -> ..|by apply not_elem_of_nil in Hin].
  1: pose Profile as t. 2: pose Admin as t. 3,4: pose Like as t.
  5,6: pose Match as t. 7,8: pose Message as t.
  all: destruct (declared_table db t Hd) as (ts & Hts & Hdef); [solve_in|].
  all: split; [discriminate|]; exists ts; split; [exact Hts|].
  all: rewrite Hdef; vm_compute; solve_in.
Qed.

Section Invariants.
Context (engine : Engine).

Lemma reachable_insert db tname kw :
  reachable engine db → reachable engine (state_after (insert engine db tname kw)).
Proof. intros Hr. eapply reachable_step; [done|]. constructor. Qed.

Lemma constraints_hold_fresh : constraints_hold fresh.
Proof.
  intros t ts u Hts _.
  apply create_all_lookup_inv in Hts as [Hts|(_ & t' & _ & _ & ->)]; [|done].
  by rewrite lookup_empty in Hts.
Qed.

Lemma insert_constraints_hold db tname kw :
  constraints_hold db → constraints_hold (state_after (insert engine db tname kw)).
Proof.
  intros Hc. destruct (insert engine db tname kw) as [db'|e db'] eqn:H; simpl.
  - apply insert_Ok_inv in H as (ts & Hts & -> & _ & _ & _ & Hu & _).
    intros t ts' u Hts' Hin. unfold accepted in Hts'.
    destruct (decide (tname = t)) as [<-|Hne].
    + rewrite lookup_insert_eq in Hts'. injection Hts' as <-. simpl in *.
      apply unique_on_snoc; [by eapply Hc|].
      intros r' Hr'. by eapply unique_violation_None.
    + rewrite lookup_insert_ne in Hts' by done. by eapply Hc.
  - apply insert_Failed_inv in H as [->|(ts & seq' & Hts & ->)]; [done|].
    intros t ts' u Hts' Hin. destruct (decide (tname = t)) as [<-|Hne].
    + rewrite lookup_insert_eq in Hts'. injection Hts' as <-. simpl in *.
      by eapply Hc.
    + rewrite lookup_insert_ne in Hts' by done. by eapply Hc.
Qed.

Lemma step_declared db db' : declared db → step engine db db' → declared db'.
Proof.
  intros Hd [tname kw|fuel tname p db'' H].
  - unfold declared. by rewrite insert_catalog.
  - destruct (delete_Ok_fuel _ _ _ _ _ _ H) as [n ->].
    apply delete_Ok_inv in H as (ts & Hts & -> & _); [|by apply declared_no_cascade].
    unfold declared, catalog, after_delete in *. rewrite fmap_insert. simpl.
    rewrite insert_id; [done|]. by rewrite lookup_fmap, Hts.
Qed.

Lemma step_constraints_hold db db' :
  declared db → constraints_hold db → step engine db db' → constraints_hold db'.
Proof.
  intros Hd Hc [tname kw|fuel tname p db'' H].
  - by apply insert_constraints_hold.
  - destruct (delete_Ok_fuel _ _ _ _ _ _ H) as [n ->].
    apply delete_Ok_inv in H as (ts & Hts & -> & _); [|by apply declared_no_cascade].
    intros t ts' u Hts' Hin. unfold after_delete in Hts'.
    destruct (decide (tname = t)) as [<-|Hne].
    + rewrite lookup_insert_eq in Hts'. injection Hts' as <-. simpl in *.
      apply unique_on_filter. by eapply Hc.
    + rewrite lookup_insert_ne in Hts' by done. by eapply Hc.
Qed.

Lemma reachable_declared db : reachable engine db → declared db.
Proof.
  induction 1 as [|db db' _ IH Hs]; [apply declared_fresh|by eapply step_declared].
Qed.

Lemma reachable_constraints_hold db : reachable engine db → constraints_hold db.
Proof.
  induction 1 as [|db db' Hr IH Hs]; [apply constraints_hold_fresh|].
  eapply step_constraints_hold; eauto using reachable_declared.
Qed.

End Invariants.


(** ** Referential integrity and typing of the reachable states *)

Lemma fk_satisfied_mono db db' fk v :
  (∀ q, q ∈ rows_of db (fk_table fk) → q ∈ rows_of db' (fk_table fk)) →
  fk_satisfied db fk v = true → fk_satisfied db' fk v = true.
Proof.
  unfold fk_satisfied. intros Hsub [Hn|Hex]%orb_true_iff; apply orb_true_iff; [by left|].
  right. apply existsb_exists in Hex as (q & Hq & Heq). apply existsb_exists.
  exists q. split; [|done]. apply list_elem_of_In, Hsub. by apply list_elem_of_In.
Qed.

Lemma fk_violation_None db t r f :
  fk_violation db t r = None → f ∈ foreign_keys t →
  fk_satisfied db (snd f) (get r (fst f)) = true.
Proof.
  unfold fk_violation. intros Hnone Hf.
  destruct (find _ _) eqn:Hfind; [discriminate|].
  apply find_none with (x := f) in Hfind; [|by apply list_elem_of_In].
  by apply negb_false_iff in Hfind.
Qed.

Lemma first_dangling_None db tname ts p t' ts' c fk r' :
  first_dangling db tname ts p = None →
  db !! t' = Some ts' → (c, fk) ∈ foreign_keys (ts_def ts') → fk_table fk = tname →
  r' ∈ rows_of (after_delete db tname ts p) t' →
  dangling (List.filter (λ r, negb (p r)) (ts_rows ts)) (List.filter p (ts_rows ts))
           c fk r' = false.
Proof.
  unfold first_dangling. intros Hnone Hts' Hf Htab Hr'.
  apply find_none with (x := (t', c, fk)) in Hnone.
  - simpl in Hnone. apply not_true_is_false. intros Hd.
    apply not_true_iff_false in Hnone. apply Hnone.
    apply existsb_exists. exists r'. split; [by apply list_elem_of_In|done].
  - apply list_elem_of_In, elem_of_referencing. eauto.
Qed.

(** *** Under enforcement no reachable state holds a dangling reference *)

Section References.
Context (engine : Engine).
Hypothesis enforced : fk_enforced engine = true.

Lemma references_hold_fresh : references_hold fresh.
Proof.
  intros t ts f r Hts _ Hr.
  apply create_all_lookup_inv in Hts as [Hts|(_ & t' & _ & _ & ->)].
  - by rewrite lookup_empty in Hts.
  - by apply not_elem_of_nil in Hr.
Qed.

Lemma insert_references_hold db tname kw :
  references_hold db → references_hold (state_after (insert engine db tname kw)).
Proof.
  intros Hrh. destruct (insert engine db tname kw) as [db'|e db'] eqn:H; simpl.
  - apply insert_Ok_inv in H as (ts & Hts & -> & _ & _ & _ & _ & Hfk).
    specialize (Hfk enforced).
    assert (∀ fk q, q ∈ rows_of db (fk_table fk) →
                    q ∈ rows_of (accepted db tname ts kw) (fk_table fk)) as Hsub.
    { intros fk q. destruct (decide (fk_table fk = tname)) as [->|Hne].
      - rewrite rows_of_accepted. intros Hq. apply elem_of_app. left.
        unfold rows_of in Hq. by rewrite Hts in Hq.
      - by rewrite rows_of_accepted_ne. }
    intros t ts' f r Hts' Hf Hr. unfold accepted in Hts'.
    destruct (decide (tname = t)) as [<-|Hne].
    + rewrite lookup_insert_eq in Hts'. injection Hts' as <-. simpl in *.
      apply elem_of_app in Hr as [Hr| ->%list_elem_of_singleton].
      * apply (fk_satisfied_mono db); [apply Hsub|]. exact (Hrh _ _ _ _ Hts Hf Hr).
      * exact (fk_violation_None _ _ _ _ Hfk Hf).
    + rewrite lookup_insert_ne in Hts' by done.
      apply (fk_satisfied_mono db); [apply Hsub|]. exact (Hrh _ _ _ _ Hts' Hf Hr).
  - assert (∀ t, rows_of db' t = rows_of db t) as Hrows
      by (intros t; by eapply insert_Failed_rows).
    apply insert_Failed_inv in H as [->|(ts & seq' & Hts & ->)]; [done|].
    intros t ts' f r Hts' Hf Hr.
    assert (∃ ts0, db !! t = Some ts0 ∧ ts_def ts0 = ts_def ts' ∧
                   ts_rows ts0 = ts_rows ts') as (ts0 & Hts0 & Hdef0 & Hrows0).
    { destruct (decide (tname = t)) as [<-|Hne].
      - rewrite lookup_insert_eq in Hts'. injection Hts' as <-. eauto.
      - rewrite lookup_insert_ne in Hts' by done. eauto. }
    apply (fk_satisfied_mono db); [intros q; by rewrite Hrows|].
    apply (Hrh t ts0); [done|by rewrite Hdef0|by rewrite Hrows0].
Qed.

Lemma delete_references_hold n db tname p db' :
  no_cascade db → references_hold db →
  delete_from engine (S n) db tname p = Ok db' → references_hold db'.
Proof.
  intros Hnc Hrh Hdel.
  apply delete_Ok_inv in Hdel as (ts & Hts & -> & Hnone); [|done].
  specialize (Hnone enforced).
  intros t ts' f r Hts' Hf Hr.
  assert (∃ ts0, db !! t = Some ts0 ∧ ts_def ts0 = ts_def ts' ∧ r ∈ ts_rows ts0 ∧
                 r ∈ rows_of (after_delete db tname ts p) t) as (ts0 & Hts0 & Hdef0 & Hr0 & Hr1).
  { unfold rows_of. rewrite Hts'. unfold after_delete in Hts'.
    destruct (decide (tname = t)) as [<-|Hne].
    - rewrite lookup_insert_eq in Hts'. injection Hts' as <-. simpl in *.
      exists ts. repeat split; try done.
      apply list_elem_of_In, filter_In in Hr as [Hr _]. by apply list_elem_of_In.
    - rewrite lookup_insert_ne in Hts' by done. eauto. }
  rewrite <- Hdef0 in Hf. pose proof (Hrh t ts0 f r Hts0 Hf Hr0) as Hsat.
  destruct (decide (fk_table (snd f) = tname)) as [Htab|Hne].
  - destruct f as [c fk]. simpl in *.
    pose proof (first_dangling_None _ _ _ _ _ _ _ _ _ Hnone Hts0 Hf Htab Hr1) as Hd.
    unfold fk_satisfied in *. apply orb_true_iff in Hsat as [Hn|Hex];
      apply orb_true_iff; [by left|right].
    rewrite Htab in *. unfold rows_of in Hex. rewrite Hts in Hex.
    unfold rows_of, after_delete. rewrite lookup_insert_eq. simpl.
    apply existsb_exists in Hex as (q & Hq & Heq).
    destruct (p q) eqn:Hpq.
    + unfold dangling in Hd. apply andb_false_iff in Hd as [Hd|Hd].
      * apply not_true_iff_false in Hd. destruct Hd. apply existsb_exists.
        exists q. split; [by apply filter_In|done].
      * by apply negb_false_iff in Hd.
    + apply existsb_exists. exists q. split; [|done].
      apply filter_In. split; [done|]. by rewrite Hpq.
  - apply (fk_satisfied_mono db); [|exact Hsat].
    intros q Hq. unfold rows_of, after_delete. by rewrite lookup_insert_ne.
Qed.

Lemma reachable_references_hold db : reachable engine db → references_hold db.
Proof.
  induction 1 as [|db db' Hr IH Hs]; [apply references_hold_fresh|].
  destruct Hs as [tname kw|fuel tname p db'' H].
  - by apply insert_references_hold.
  - destruct (delete_Ok_fuel _ _ _ _ _ _ H) as [n ->].
    eapply delete_references_hold; [|done..].
    by eapply declared_no_cascade, reachable_declared.
Qed.

End References.

(** *** Every cell of a reachable state fits its column *)

Lemma metadata_ok t : t ∈ metadata → table_ok t = true.
Proof.
  intros Hin. unfold metadata in Hin.
  repeat (apply elem_of_cons in Hin as [->|Hin]; [vm_compute; reflexivity|]).
  by apply not_elem_of_nil in Hin.
Qed.

Lemma get_new_row t seq kw c :
  NoDup (column_names t) → c ∈ columns t →
  get (new_row t seq kw) (col_name c) = new_cell t seq kw c.
Proof.
  unfold new_row, column_names. generalize (columns t) as cs.
  induction cs as [|c0 cs IH]; intros Hnd Hin; [by apply not_elem_of_nil in Hin|].
  rewrite fmap_cons in Hnd. apply NoDup_cons in Hnd as [Hnotin Hnd].
  rewrite fmap_cons. cbn [get].
  apply elem_of_cons in Hin as [->|Hin]; [by rewrite String.eqb_refl|].
  destruct (String.eqb (col_name c0) (col_name c)) eqn:Heq; [|by apply IH].
  apply String.eqb_eq in Heq. destruct Hnotin. rewrite Heq.
  by apply list_elem_of_fmap_2.
Qed.

Lemma ill_typed_None t kw c v :
  ill_typed t kw = None → c ∈ columns t → assigned kw (col_name c) = Some v →
  fits (col_type c) v = true.
Proof.
  unfold ill_typed. intros Hnone Hin Hv.
  destruct (find _ _) eqn:Hfind; [discriminate|].
  apply find_none with (x := c) in Hfind; [|by apply list_elem_of_In].
  rewrite Hv in Hfind. by apply negb_false_iff in Hfind.
Qed.

Lemma uses_sequence_serial t kw c :
  c ∈ columns t → is_serial t c = true → assigned kw (col_name c) = None →
  uses_sequence t kw = true.
Proof.
  intros Hin Hs Ha. unfold uses_sequence. apply existsb_exists. exists c.
  split; [by apply list_elem_of_In|]. rewrite Hs, Ha. by rewrite bool_decide_eq_true_2.
Qed.

(** Every cell of a row the engine builds fits its column. *)
Lemma new_row_fits t seq kw c :
  table_ok t = true → ill_typed t kw = None → 1 ≤ seq →
  uses_sequence t kw && (int4_max <? seq) = false →
  c ∈ columns t → fits (col_type c) (get (new_row t seq kw) (col_name c)) = true.
Proof.
  intros [Hnd Hcols]%andb_true_iff Hty Hseq Hex Hin.
  apply bool_decide_eq_true in Hnd. rewrite get_new_row by done.
  rewrite forallb_forall in Hcols. specialize (Hcols c).
  rewrite <- list_elem_of_In in Hcols. specialize (Hcols Hin).
  apply andb_true_iff in Hcols as [Hser Hdef]. unfold new_cell.
  destruct (assigned kw (col_name c)) as [v|] eqn:Ha; [by eapply ill_typed_None|].
  destruct (is_serial t c) eqn:Hs.
  - simpl in Hser. apply bool_decide_eq_true in Hser. rewrite Hser.
    rewrite (uses_sequence_serial t kw c) in Hex by done. simpl in Hex.
    apply Z.ltb_ge in Hex. apply fits_int4. unfold int4, int4_min. lia.
  - by destruct (col_default c).
Qed.

Section Typed.
Context (engine : Engine).

Lemma well_typed_fresh : well_typed fresh ∧ sequences_positive fresh.
Proof.
  split.
  - intros t ts c r Hts _ Hr.
    apply create_all_lookup_inv in Hts as [Hts|(_ & t' & _ & _ & ->)].
    + by rewrite lookup_empty in Hts.
    + by apply not_elem_of_nil in Hr.
  - intros t ts Hts.
    apply create_all_lookup_inv in Hts as [Hts|(_ & t' & _ & _ & ->)]; [|done].
    by rewrite lookup_empty in Hts.
Qed.

Lemma insert_sequences_positive db tname kw :
  sequences_positive db → sequences_positive (state_after (insert engine db tname kw)).
Proof.
  intros Hp. destruct (insert engine db tname kw) as [db'|e db'] eqn:H; simpl.
  - apply insert_Ok_inv in H as (ts & Hts & -> & _).
    intros t ts' Hts'. unfold accepted in Hts'.
    destruct (decide (tname = t)) as [<-|Hne].
    + rewrite lookup_insert_eq in Hts'. injection Hts' as <-. simpl.
      specialize (Hp _ _ Hts). destruct (uses_sequence _ _); lia.
    + rewrite lookup_insert_ne in Hts' by done. by eapply Hp.
  - revert H. unfold insert. destruct (db !! tname) as [ts|] eqn:Hts;
      [|by intros [= _ <-]].
    destruct (unknown_column _ _); [by intros [= _ <-]|].
    destruct (ill_typed _ _); [by intros [= _ <-]|].
    destruct (uses_sequence _ _ && _); [by intros [= _ <-]|].
    intros H.
    assert (db' = <[tname := mkTableState (ts_def ts) (ts_rows ts)
                               (if uses_sequence (ts_def ts) kw then ts_seq ts + 1
                                else ts_seq ts)]> db) as ->.
    { destruct (null_violation _ _); [by injection H as _ <-|].
      destruct (unique_violation _ _ _); [by injection H as _ <-|].
      destruct (if fk_enforced engine then _ else _); [by injection H as _ <-|discriminate]. }
    intros t ts' Hts'. destruct (decide (tname = t)) as [<-|Hne].
    + rewrite lookup_insert_eq in Hts'. injection Hts' as <-. simpl.
      specialize (Hp _ _ Hts). destruct (uses_sequence _ _); lia.
    + rewrite lookup_insert_ne in Hts' by done. by eapply Hp.
Qed.

Lemma insert_well_typed db tname kw :
  declared db → sequences_positive db → well_typed db →
  well_typed (state_after (insert engine db tname kw)).
Proof.
  intros Hd Hp Hw. destruct (insert engine db tname kw) as [db'|e db'] eqn:H; simpl.
  - pose proof H as Hins. apply insert_Ok_inv in H as (ts & Hts & -> & _ & Hty & _).
    assert (uses_sequence (ts_def ts) kw && (int4_max <? ts_seq ts) = false) as Hex.
    { revert Hins. unfold insert. rewrite Hts.
      destruct (unknown_column _ _); [discriminate|].
      destruct (ill_typed _ _); [discriminate|].
      by destruct (uses_sequence _ _ && _). }
    intros t ts' c r Hts' Hc Hr. unfold accepted in Hts'.
    destruct (decide (tname = t)) as [<-|Hne].
    + rewrite lookup_insert_eq in Hts'. injection Hts' as <-. simpl in *.
      apply elem_of_app in Hr as [Hr| ->%list_elem_of_singleton]; [by eapply Hw|].
      apply new_row_fits; try done; [|by eapply Hp].
      apply metadata_ok. by eapply declared_lookup.
    + rewrite lookup_insert_ne in Hts' by done. by eapply Hw.
  - apply insert_Failed_inv in H as [->|(ts & seq' & Hts & ->)]; [done|].
    intros t ts' c r Hts' Hc Hr. destruct (decide (tname = t)) as [<-|Hne].
    + rewrite lookup_insert_eq in Hts'. injection Hts' as <-. simpl in *.
      by eapply Hw.
    + rewrite lookup_insert_ne in Hts' by done. by eapply Hw.
Qed.

Lemma reachable_well_typed db :
  reachable engine db → well_typed db ∧ sequences_positive db.
Proof.
  induction 1 as [|db db' Hr [Hw Hp] Hs]; [apply well_typed_fresh|].
  pose proof (reachable_declared _ _ Hr) as Hd.
  destruct Hs as [tname kw|fuel tname p db'' H].
  - split; [by apply insert_well_typed|by apply insert_sequences_positive].
  - destruct (delete_Ok_fuel _ _ _ _ _ _ H) as [n ->].
    apply delete_Ok_inv in H as (ts & Hts & -> & _); [|by apply declared_no_cascade].
    split.
    + intros t ts' c r Hts' Hc Hr'. unfold after_delete in Hts'.
      destruct (decide (tname = t)) as [<-|Hne].
      * rewrite lookup_insert_eq in Hts'. injection Hts' as <-. simpl in *.
        apply list_elem_of_In, filter_In in Hr' as [Hr' _].
        apply list_elem_of_In in Hr'. by eapply Hw.
      * rewrite lookup_insert_ne in Hts' by done. by eapply Hw.
    + intros t ts' Hts'. unfold after_delete in Hts'.
      destruct (decide (tname = t)) as [<-|Hne].
      * rewrite lookup_insert_eq in Hts'. injection Hts' as <-. simpl. by eapply Hp.
      * rewrite lookup_insert_ne in Hts' by done. by eapply Hp.
Qed.

End Typed.

Lemma fits_Integer_cell v :
  fits Integer v = true → ∃ a, v = cell a ∧ int4_opt a.
Proof.
  unfold fits. destruct v as [|z| | | |]; simpl; try discriminate.
  - intros _. by exists None.
  - intros [H1%Z.leb_le H2%Z.leb_le]%andb_true_iff. exists (Some z). by split.
Qed.

Lemma satisfied_names_user db a :
  fk_satisfied db (mkForeignKey "users" "id" None) (cell a) = true → names_user db a.
Proof.
  unfold fk_satisfied. destruct a as [z|]; simpl; [|done].
  intros (u & Hu & Heq)%existsb_exists. simpl in Heq.
  apply bool_decide_eq_true in Heq. exists u. split; [by apply list_elem_of_In|done].
Qed.

(** ** The statements of each model *)

Lemma row_id_eq ts id :
  match id with Some i => i | None => ts_seq ts end = row_id ts id.
Proof. done. Qed.

Lemma new_row_Match seq id a b :
  new_row Match seq (new_Match id a b) =
  [("id", VInt (match id with Some i => i | None => seq end));
   ("user_id", cell a); ("liked_user_id", cell b)].
Proof. by destruct id, a, b. Qed.

Lemma presentable_Match ts id a b :
  ts_def ts = Match → int4 (row_id ts id) → int4_opt a → int4_opt b →
  presentable ts (new_Match id a b).
Proof.
  intros Hdef Hid Ha Hb. unfold presentable. rewrite Hdef.
  split; [by destruct id, a, b|].
  split; [unfold ill_typed; stage|].
  split; [|by rewrite new_row_Match].
  destruct id; simpl in Hid; [by destruct a, b|].
  rewrite (not_exhausted _ Hid). apply andb_false_r.
Qed.

Lemma new_row_Like seq id a b :
  new_row Like seq (new_Like id a b) =
  [("id", VInt (match id with Some i => i | None => seq end));
   ("user_id", cell a); ("liked_user_id", cell b)].
Proof. by destruct id, a, b. Qed.

Lemma presentable_Like ts id a b :
  ts_def ts = Like → int4 (row_id ts id) → int4_opt a → int4_opt b →
  presentable ts (new_Like id a b).
Proof.
  intros Hdef Hid Ha Hb. unfold presentable. rewrite Hdef.
  split; [by destruct id, a, b|].
  split; [unfold ill_typed; stage|].
  split; [|by rewrite new_row_Like].
  destruct id; simpl in Hid; [by destruct a, b|].
  rewrite (not_exhausted _ Hid). apply andb_false_r.
Qed.

Lemma new_row_Message seq id a b m :
  new_row Message seq (new_Message id a b m) =
  [("id", VInt (match id with Some i => i | None => seq end));
   ("sender_id", cell a); ("receiver_id", cell b);
   ("message", match m with Some s => VStr s | None => VNull end)].
Proof. by destruct id, a, b, m. Qed.

Lemma presentable_Message ts id a b m :
  ts_def ts = Message → int4 (row_id ts id) → int4_opt a → int4_opt b →
  presentable ts (new_Message id a b m).
Proof.
  intros Hdef Hid Ha Hb. unfold presentable. rewrite Hdef.
  split; [by destruct id, a, b, m|].
  split; [unfold ill_typed; stage|].
  split; [|by rewrite new_row_Message].
  destruct id; simpl in Hid; [by destruct a, b, m|].
  rewrite (not_exhausted _ Hid). apply andb_false_r.
Qed.

Lemma new_row_Admin seq id u blocked :
  new_row Admin seq (new_Admin id u blocked) =
  [("id", VInt (match id with Some i => i | None => seq end));
   ("user_id", cell u);
   ("is_blocked", VBool (match blocked with Some b => b | None => false end))].
Proof. by destruct id, u, blocked. Qed.

Lemma presentable_Admin ts id u blocked :
  ts_def ts = Admin → int4 (row_id ts id) → int4 u →
  presentable ts (new_Admin id (Some u) blocked).
Proof.
  intros Hdef Hid Hu. unfold presentable. rewrite Hdef.
  split; [by destruct id, blocked|].
  split; [unfold ill_typed; stage|].
  split; [|by rewrite new_row_Admin].
  destruct id; simpl in Hid; [by destruct blocked|].
  rewrite (not_exhausted _ Hid). apply andb_false_r.
Qed.

(** The users table has no SERIAL column, so no statement draws a value
    for users.id. *)
Lemma is_serial_User c : is_serial User c = false.
Proof. unfold is_serial. by apply bool_decide_eq_false_2. Qed.

Lemma uses_sequence_User kw : uses_sequence User kw = false.
Proof.
  unfold uses_sequence. generalize (columns User) as cs.
  induction cs as [|c cs IH]; [done|].
  cbn [existsb]. by rewrite is_serial_User, IH.
Qed.

Lemma new_row_User_id seq kw :
  get (new_row User seq kw) "id" =
  match assigned kw "id" with Some v => v | None => VNull end.
Proof. simpl. unfold new_cell. rewrite is_serial_User. simpl. reflexivity. Qed.

Lemma null_violation_User_id seq kw :
  assigned kw "id" = None → null_violation User (new_row User seq kw) = Some "id".
Proof.
  intros Hid. unfold null_violation.
  change (columns User) with (column "id" Integer [primary_key true; autoincrement false]
                                :: tail (columns User)).
  cbn [find]. rewrite new_row_User_id, Hid. reflexivity.
Qed.

(** *** References to users *)

Lemma names_user_satisfied db v :
  names_user db v → fk_satisfied db (mkForeignKey "users" "id" None) (cell v) = true.
Proof.
  unfold fk_satisfied. destruct v as [z|]; simpl; [|done].
  intros (u & Hu & Hid). apply existsb_exists. exists u.
  split; [by apply list_elem_of_In|]. rewrite Hid. by apply bool_decide_eq_true_2.
Qed.

Lemma names_user_rows db db' v :
  rows_of db' "users" = rows_of db "users" → names_user db v → names_user db' v.
Proof. intros Heq. destruct v; simpl; [by rewrite Heq|done]. Qed.

Lemma missing_user_unsatisfied db v :
  v ≠ VNull → (∀ u, u ∈ rows_of db "users" → get u "id" ≠ v) →
  fk_satisfied db (mkForeignKey "users" "id" None) v = false.
Proof.
  intros Hv Hmiss. unfold fk_satisfied. rewrite bool_decide_eq_false_2 by done. simpl.
  apply not_true_is_false. intros (u & Hu & Heq)%existsb_exists.
  apply sql_eq_true in Heq as [_ Heq]. apply (Hmiss u); [by apply list_elem_of_In|done].
Qed.

Lemma id_free_agree ts id (rest r' : row) :
  id_free ts id → r' ∈ ts_rows ts →
  agree ["id"] (("id", VInt (row_id ts id)) :: rest) r' = false.
Proof.
  intros [_ Hfree] Hr'. unfold agree. simpl.
  rewrite bool_decide_eq_false_2; [done|]. intros Heq. by apply (Hfree r').
Qed.

Lemma null_pair_agree i (a b : option Z) (r' : row) :
  a = None ∨ b = None →
  agree ["user_id"; "liked_user_id"]
        [("id", VInt i); ("user_id", cell a); ("liked_user_id", cell b)] r' = false.
Proof.
  unfold agree. intros [-> | ->]; simpl; [done|]. by rewrite andb_false_r.
Qed.

(** *** Accepted rows of likes, matches and messages *)

(** Both foreign keys of a row that holds [cell a] and [cell b] are
    satisfied once [a] and [b] name users. *)
Ltac both_references Hna Hnb :=
  let f := fresh "f" in
  let Hf := fresh "Hf" in
  apply fk_violation_None_intro; intros f Hf; vm_compute in Hf;
  apply elem_of_cons in Hf as [->|Hf]; [|apply list_elem_of_singleton in Hf as ->];
  [ apply names_user_satisfied; eapply names_user_rows; [|exact Hna];
    by apply rows_of_accepted_ne
  | apply names_user_satisfied; eapply names_user_rows; [|exact Hnb];
    by apply rows_of_accepted_ne ].

Section Accepted.
Context (engine : Engine).

Lemma insert_Like_Ok db ts id a b :
  declared db → db !! "likes" = Some ts →
  id_free ts id → int4_opt a → int4_opt b →
  (fk_enforced engine = true → names_user db a ∧ names_user db b) →
  ∃ db', insert engine db "likes" (new_Like id a b) = Ok db' ∧
         rows_of db' "likes" =
           ts_rows ts ++ [ [("id", VInt (row_id ts id)); ("user_id", cell a);
                            ("liked_user_id", cell b)] ].
Proof.
  intros Hd Hts Hid Ha Hb Hfk.
  assert (ts_def ts = Like) as Hdef.
  { apply (declared_def db); [done|solve_in|done]. }
  exists (accepted db "likes" ts (new_Like id a b)). split.
  - apply insert_Ok_intro;
      [exact Hts|apply presentable_Like; [exact Hdef|apply Hid|exact Ha|exact Hb]| |].
    + apply unique_violation_None_intro. rewrite Hdef, new_row_Like, row_id_eq.
      intros u r' Hu Hr'. vm_compute in Hu.
      apply list_elem_of_singleton in Hu as ->. by apply id_free_agree.
    + intros Hen. destruct (Hfk Hen) as [Hna Hnb].
      rewrite Hdef, new_row_Like. both_references Hna Hnb.
  - by rewrite rows_of_accepted, Hdef, new_row_Like.
Qed.

Lemma insert_Message_Ok db ts id a b m :
  declared db → db !! "messages" = Some ts →
  id_free ts id → int4_opt a → int4_opt b →
  (fk_enforced engine = true → names_user db a ∧ names_user db b) →
  ∃ db', insert engine db "messages" (new_Message id a b m) = Ok db' ∧
         rows_of db' "messages" =
           ts_rows ts ++ [ [("id", VInt (row_id ts id)); ("sender_id", cell a);
                            ("receiver_id", cell b);
                            ("message", match m with Some s => VStr s | None => VNull end)] ].
Proof.
  intros Hd Hts Hid Ha Hb Hfk.
  assert (ts_def ts = Message) as Hdef.
  { apply (declared_def db); [done|solve_in|done]. }
  exists (accepted db "messages" ts (new_Message id a b m)). split.
  - apply insert_Ok_intro;
      [exact Hts|apply presentable_Message; [exact Hdef|apply Hid|exact Ha|exact Hb]| |].
    + apply unique_violation_None_intro. rewrite Hdef, new_row_Message, row_id_eq.
      intros u r' Hu Hr'. vm_compute in Hu.
      apply list_elem_of_singleton in Hu as ->. by apply id_free_agree.
    + intros Hen. destruct (Hfk Hen) as [Hna Hnb].
      rewrite Hdef, new_row_Message. both_references Hna Hnb.
  - by rewrite rows_of_accepted, Hdef, new_row_Message.
Qed.

Lemma insert_Match_Ok db ts id a b :
  declared db → db !! "matches" = Some ts →
  (∀ r', r' ∈ ts_rows ts →
         agree ["user_id"; "liked_user_id"]
               [("id", VInt (row_id ts id)); ("user_id", cell a); ("liked_user_id", cell b)]
               r' = false) →
  id_free ts id → int4_opt a → int4_opt b →
  (fk_enforced engine = true → names_user db a ∧ names_user db b) →
  ∃ db', insert engine db "matches" (new_Match id a b) = Ok db' ∧
         rows_of db' "matches" =
           ts_rows ts ++ [ [("id", VInt (row_id ts id)); ("user_id", cell a);
                            ("liked_user_id", cell b)] ].
Proof.
  intros Hd Hts Hpair Hid Ha Hb Hfk.
  assert (ts_def ts = Match) as Hdef.
  { apply (declared_def db); [done|solve_in|done]. }
  exists (accepted db "matches" ts (new_Match id a b)). split.
  - apply insert_Ok_intro;
      [exact Hts|apply presentable_Match; [exact Hdef|apply Hid|exact Ha|exact Hb]| |].
    + apply unique_violation_None_intro. rewrite Hdef, new_row_Match, row_id_eq.
      intros u r' Hu Hr'. vm_compute in Hu.
      apply elem_of_cons in Hu as [->|Hu]; [|apply list_elem_of_singleton in Hu as ->].
      * by apply id_free_agree.
      * by apply Hpair.
    + intros Hen. destruct (Hfk Hen) as [Hna Hnb].
      rewrite Hdef, new_row_Match. both_references Hna Hnb.
  - by rewrite rows_of_accepted, Hdef, new_row_Match.
Qed.

(** *** The pairs of matches *)

Lemma duplicate_match_rejected db ts r0 id a b :
  declared db → db !! "matches" = Some ts → r0 ∈ ts_rows ts →
  get r0 "user_id" = VInt a → get r0 "liked_user_id" = VInt b →
  ∃ e db', insert engine db "matches" (new_Match id (Some a) (Some b)) = Failed e db' ∧
           rows_of db' "matches" = ts_rows ts ∧
           (int4 (row_id ts id) → int4 a → int4 b → ∃ n, e = UniqueViolation n).
Proof.
  intros Hd Hts Hr0 Ha Hb.
  assert (ts_def ts = Match) as Hdef.
  { apply (declared_def db); [done|solve_in|done]. }
  destruct (insert_collision engine db "matches" ts (new_Match id (Some a) (Some b))
              ("unique_match", ["user_id"; "liked_user_id"]) r0) as (e & db' & Hins & He).
  - done.
  - rewrite Hdef. vm_compute. solve_in.
  - done.
  - rewrite Hdef, new_row_Match. unfold agree. simpl. rewrite Ha, Hb.
    by rewrite !bool_decide_eq_true_2.
  - exists e, db'. split; [done|]. split.
    + rewrite (insert_Failed_rows _ _ _ _ _ _ "matches" Hins). unfold rows_of. by rewrite Hts.
    + intros Hid Hia Hib. apply He. by apply presentable_Match.
Qed.

Lemma insert_match_pairs_unique db tname kw :
  declared db → match_pairs_unique db →
  match_pairs_unique (state_after (insert engine db tname kw)).
Proof.
  intros Hd Hu. destruct (insert engine db tname kw) as [db'|e db'] eqn:Hins; simpl.
  - destruct (decide (tname = "matches")) as [->|Hne].
    + apply insert_Ok_inv in Hins as (ts & Hts & -> & _ & _ & _ & Hnone & _).
      assert (ts_def ts = Match) as Hdef.
      { apply (declared_def db); [done|solve_in|done]. }
      intros a b Ha Hb. rewrite rows_of_accepted.
      apply unique_on_count_pair; [done..|]. apply unique_on_snoc.
      * apply count_pair_unique_on. intros v1 v2 Hv1 Hv2.
        specialize (Hu v1 v2 Hv1 Hv2). unfold rows_of in Hu. by rewrite Hts in Hu.
      * intros r' Hr'.
        apply (unique_violation_None _ _ _ ("unique_match", ["user_id"; "liked_user_id"])
                 _ Hnone); [|done].
        rewrite Hdef. vm_compute. solve_in.
    + intros a b Ha Hb. replace (rows_of db' "matches") with (rows_of db "matches");
        [by apply Hu|].
      pose proof (insert_rows_other engine db tname kw "matches") as Hro.
      rewrite Hins in Hro. simpl in Hro. symmetry. apply Hro. congruence.
  - intros a b Ha Hb. rewrite (insert_Failed_rows _ _ _ _ _ _ "matches" Hins). by apply Hu.
Qed.

Lemma reachable_match_pairs_unique db :
  reachable engine db → match_pairs_unique db.
Proof.
  intros Hr a b Ha Hb.
  pose proof (reachable_declared _ _ Hr) as Hd.
  pose proof (reachable_constraints_hold _ _ Hr) as Hc.
  destruct (declared_table db Match Hd) as (ts & Hts & Hdef); [solve_in|].
  simpl in Hts. unfold rows_of. rewrite Hts.
  apply unique_on_count_pair; [done..|].
  apply (Hc "matches" ts ("unique_match", ["user_id"; "liked_user_id"])); [done|].
  rewrite Hdef. vm_compute. solve_in.
Qed.

End Accepted.

(** ** The properties of the schema *)

(** C1, as amended: uniqueness of match pairs covers the pairs without a
    NULL. In a database that holds the declared tables, inserting a Match
    whose user_id and liked_user_id are both given and equal those of a row
    already in matches is rejected and leaves the rows of matches as they
    were; the error is a unique-constraint violation whenever the statement
    is otherwise in order (32-bit values, a sequence value left to draw).
    No two rows of matches of a reachable state hold the same pair of
    non-NULL (user_id, liked_user_id), and every INSERT, into any table,
    keeps it so. *)
Theorem unique_match_constraint (engine : Engine) :
  (∀ db ts r0 id a b,
     declared db → db !! "matches" = Some ts → r0 ∈ ts_rows ts →
     get r0 "user_id" = VInt a → get r0 "liked_user_id" = VInt b →
     ∃ e db', insert engine db "matches" (new_Match id (Some a) (Some b)) = Failed e db' ∧
              rows_of db' "matches" = ts_rows ts ∧
              (int4 (row_id ts id) → int4 a → int4 b → ∃ n, e = UniqueViolation n)) ∧
  (∀ db tname kw,
     declared db → match_pairs_unique db →
     match_pairs_unique (state_after (insert engine db tname kw))) ∧
  (∀ db, reachable engine db → match_pairs_unique db).
Proof.
  split; [|split].
  - apply duplicate_match_rejected.
  - apply insert_match_pairs_unique.
  - apply reachable_match_pairs_unique.
Qed.

(** C1, an instance: Alice is matched with Bob; the same match again is
    rejected with a unique violation. *)
Lemma unique_match_constraint_witness :
  ∃ n db', insert enforcing (one_way enforcing) "matches"
             (new_Match None (Some 1) (Some 2)) = Failed (UniqueViolation n) db'.
Proof.
  destruct (proj1 (unique_match_constraint enforcing) (one_way enforcing)
              (mkTableState Match
                 [ [("id", VInt 1); ("user_id", VInt 1); ("liked_user_id", VInt 2)] ] 2)
              [("id", VInt 1); ("user_id", VInt 1); ("liked_user_id", VInt 2)]
              None 1 2) as (e & db' & Hins & _ & He).
  - vm_compute; reflexivity.
  - vm_compute; reflexivity.
  - apply list_elem_of_here.
  - reflexivity.
  - reflexivity.
  - destruct He as [n ->]; [int4_tac..|]. eauto.
Defined.

(** C1, as stated, fails on a pair with a NULL: matches holds a row with
    the pair (NULL, 2); a second row with the same pair is accepted, and
    the table then holds two rows with that pair. *)
Lemma null_match_pair_repeats :
  reachable enforcing half_match ∧
  rows_of half_match "matches" =
    [ [("id", VInt 1); ("user_id", VNull); ("liked_user_id", VInt 2)] ] ∧
  ∃ db', insert enforcing half_match "matches" (new_Match None None (Some 2)) = Ok db' ∧
         rows_of db' "matches" =
           [ [("id", VInt 1); ("user_id", VNull); ("liked_user_id", VInt 2)];
             [("id", VInt 2); ("user_id", VNull); ("liked_user_id", VInt 2)] ].
Proof.
  split; [do 3 apply reachable_insert; constructor|].
  split; [vm_compute; reflexivity|].
  eexists. split; vm_compute; reflexivity.
Qed.

(** C2: the uniqueness of matches is directional. With users 1 and 2 in
    place, the match (1, 2) is accepted, then the match (2, 1) is accepted
    too, and the state reached holds both rows; this on every engine. *)
Theorem mirrored_matches_accepted (engine : Engine) :
  reachable engine (two_users engine) ∧
  (λ r, get r "id") <$> rows_of (two_users engine) "users" = [VInt 1; VInt 2] ∧
  insert engine (two_users engine) "matches" (new_Match None (Some 1) (Some 2))
    = Ok (one_way engine) ∧
  insert engine (one_way engine) "matches" (new_Match None (Some 2) (Some 1))
    = Ok (both_ways engine) ∧
  reachable engine (both_ways engine) ∧
  rows_of (both_ways engine) "matches" =
    [ [("id", VInt 1); ("user_id", VInt 1); ("liked_user_id", VInt 2)];
      [("id", VInt 2); ("user_id", VInt 2); ("liked_user_id", VInt 1)] ].
Proof.
  split; [do 2 apply reachable_insert; constructor|].
  split; [destruct engine as [[|]]; vm_compute; reflexivity|].
  split; [destruct engine as [[|]]; vm_compute; reflexivity|].
  split; [destruct engine as [[|]]; vm_compute; reflexivity|].
  split; [do 4 apply reachable_insert; constructor|].
  destruct engine as [[|]]; vm_compute; reflexivity.
Qed.

(** C3: likes has no uniqueness constraint on the pair, so repeated likes
    accumulate. In every reachable state and for every row of likes, a Like
    with the (user_id, liked_user_id) of that row is accepted and appended
    as a row of its own, so the table then holds that pair at least twice.
    All the statement needs is an id: the one it gives, or else the next
    value of the sequence, must be a 32-bit integer no row of likes has. *)
Theorem likes_accept_duplicates (engine : Engine) db ts r0 id :
  reachable engine db → db !! "likes" = Some ts → r0 ∈ ts_rows ts → id_free ts id →
  ∃ a b db',
    get r0 "user_id" = cell a ∧ get r0 "liked_user_id" = cell b ∧
    insert engine db "likes" (new_Like id a b) = Ok db' ∧
    rows_of db' "likes" =
      ts_rows ts ++ [ [("id", VInt (row_id ts id)); ("user_id", get r0 "user_id");
                       ("liked_user_id", get r0 "liked_user_id")] ] ∧
    (2 ≤ count_pair "user_id" "liked_user_id" (get r0 "user_id") (get r0 "liked_user_id")
           (rows_of db' "likes"))%nat.
Proof.
  intros Hr Hts Hr0 Hid.
  pose proof (reachable_declared _ _ Hr) as Hd.
  destruct (reachable_well_typed _ _ Hr) as [Hw _].
  assert (ts_def ts = Like) as Hdef.
  { apply (declared_def db); [done|solve_in|done]. }
  destruct (fits_Integer_cell (get r0 "user_id")) as (a & Ha & Hia).
  { apply (Hw "likes" ts (column "user_id" Integer [ForeignKey_ "users" "id"]) r0);
      [done|rewrite Hdef; solve_in|done]. }
  destruct (fits_Integer_cell (get r0 "liked_user_id")) as (b & Hb & Hib).
  { apply (Hw "likes" ts (column "liked_user_id" Integer [ForeignKey_ "users" "id"]) r0);
      [done|rewrite Hdef; solve_in|done]. }
  exists a, b.
  destruct (insert_Like_Ok engine db ts id a b) as (db' & Hins & Hrows); try done.
  { intros Hen. pose proof (reachable_references_hold _ Hen _ Hr) as Hrh.
    split; apply satisfied_names_user.
    - rewrite <- Ha.
      apply (Hrh "likes" ts ("user_id", mkForeignKey "users" "id" None) r0);
        [done|rewrite Hdef; vm_compute; solve_in|done].
    - rewrite <- Hb.
      apply (Hrh "likes" ts ("liked_user_id", mkForeignKey "users" "id" None) r0);
        [done|rewrite Hdef; vm_compute; solve_in|done]. }
  exists db'. rewrite Ha, Hb. repeat (split; [done|]).
  rewrite Hrows, count_pair_app.
  pose proof (count_pair_ge_1 "user_id" "liked_user_id" r0 _ Hr0) as Hge.
  rewrite Ha, Hb in Hge.
  unfold count_pair at 2. simpl. rewrite !bool_decide_eq_true_2 by done. simpl. lia.
Qed.

(** C3, an instance: Alice has liked Bob once; she likes him again. *)
Lemma likes_accept_duplicates_witness :
  ∃ a b db',
    VInt 1 = cell a ∧ VInt 2 = cell b ∧
    insert enforcing liked_once "likes" (new_Like None a b) = Ok db' ∧
    rows_of db' "likes" =
      [ [("id", VInt 1); ("user_id", VInt 1); ("liked_user_id", VInt 2)];
        [("id", VInt 2); ("user_id", VInt 1); ("liked_user_id", VInt 2)] ] ∧
    (2 ≤ count_pair "user_id" "liked_user_id" (VInt 1) (VInt 2) (rows_of db' "likes"))%nat.
Proof.
  apply (likes_accept_duplicates enforcing liked_once
           (mkTableState Like
              [ [("id", VInt 1); ("user_id", VInt 1); ("liked_user_id", VInt 2)] ] 2)
           [("id", VInt 1); ("user_id", VInt 1); ("liked_user_id", VInt 2)]
           None).
  - do 3 apply reachable_insert; constructor.
  - vm_compute; reflexivity.
  - apply list_elem_of_here.
  - split; [int4_tac|]. intros r Hr. apply list_elem_of_singleton in Hr as ->. discriminate.
Defined.

(** C4 does not hold of the code: profiles.user_id carries no uniqueness
    constraint (admins.user_id does). With user 1 in place and one profile
    for her, a second Profile with user_id 1 is accepted, and the state
    reached holds two profiles rows that reference user 1. *)
Theorem profiles_repeat_user (engine : Engine) :
  reachable engine (with_profile engine) ∧
  rows_of (with_profile engine) "profiles" =
    [ [("id", VInt 1); ("user_id", VInt 1); ("photo", VNull); ("description", VNull);
       ("interests", VNull)] ] ∧
  insert engine (with_profile engine) "profiles" (new_Profile None (Some 1) None None None)
    = Ok (with_two_profiles engine) ∧
  reachable engine (with_two_profiles engine) ∧
  count_of "user_id" (VInt 1) (rows_of (with_two_profiles engine) "profiles") = 2%nat ∧
  unique_constraints Profile = [("profiles_pkey", ["id"])] ∧
  unique_constraints Admin = [("admins_pkey", ["id"]); ("admins_user_id_key", ["user_id"])].
Proof.
  split; [do 2 apply reachable_insert; constructor|].
  split; [destruct engine as [[|]]; vm_compute; reflexivity|].
  split; [destruct engine as [[|]]; vm_compute; reflexivity|].
  split; [do 3 apply reachable_insert; constructor|].
  split; [destruct engine as [[|]]; vm_compute; reflexivity|].
  split; reflexivity.
Qed.

(** C5: users.id is never generated. The users table has no column that
    receives generated values; an INSERT into users that gives an id and is
    accepted stores a row with exactly that id; an INSERT that gives no id
    is rejected and leaves the database unchanged, and unless the statement
    is malformed (an unknown column, an ill-typed value) the error is the
    NOT NULL violation of users.id. *)
Theorem user_id_never_generated (engine : Engine) db ts kw :
  declared db → db !! "users" = Some ts →
  autoincrement_column User = None ∧
  (∀ v db', assigned kw "id" = Some v → insert engine db "users" kw = Ok db' →
            ∃ r, rows_of db' "users" = ts_rows ts ++ [r] ∧ get r "id" = v) ∧
  (assigned kw "id" = None →
   ∃ e, insert engine db "users" kw = Failed e db ∧
        (unknown_column User kw = None → ill_typed User kw = None →
         e = NotNullViolation "users" "id")).
Proof.
  intros Hd Hts.
  assert (ts_def ts = User) as Hdef.
  { apply (declared_def db); [done|solve_in|done]. }
  split; [reflexivity|]. split.
  - intros v db' Hid Hins.
    apply insert_Ok_inv in Hins as (ts' & Hts' & -> & _).
    assert (ts' = ts) by congruence. subst ts'.
    exists (new_row (ts_def ts) (ts_seq ts) kw).
    split; [by rewrite rows_of_accepted|].
    by rewrite Hdef, new_row_User_id, Hid.
  - intros Hid. unfold insert. rewrite Hts, Hdef.
    destruct (unknown_column User kw); [eexists; split; [done|discriminate]|].
    destruct (ill_typed User kw); [eexists; split; [done|discriminate]|].
    rewrite uses_sequence_User, null_violation_User_id by done. simpl.
    rewrite <- Hdef, table_state_eta, insert_id by done.
    eexists. split; done.
Qed.

(** C5, an instance: Alice, inserted with id 1, is stored with id 1; a user
    row with no id is rejected on users.id. *)
Lemma user_id_never_generated_witness :
  (∃ r, rows_of (with_user enforcing) "users" = [r] ∧ get r "id" = VInt 1) ∧
  insert enforcing fresh "users" nameless = Failed (NotNullViolation "users" "id") fresh.
Proof.
  assert (declared fresh) as Hd by (vm_compute; reflexivity).
  assert (fresh !! "users" = Some (mkTableState User [] 1)) as Hts
    by (vm_compute; reflexivity).
  split.
  - destruct (user_id_never_generated enforcing fresh _ alice Hd Hts) as (_ & Hgiven & _).
    apply (Hgiven (VInt 1) (with_user enforcing)); vm_compute; reflexivity.
  - destruct (user_id_never_generated enforcing fresh _ nameless Hd Hts) as (_ & _ & Hnone).
    destruct Hnone as (e & Hins & He); [reflexivity|].
    rewrite Hins. f_equal. apply He; vm_compute; reflexivity.
Defined.

(** C6: admins.user_id is unique. In a database that holds the declared
    tables, an Admin whose user_id equals that of a row already in admins
    is rejected and leaves the rows of admins as they were, with a
    unique-constraint violation whenever the statement is otherwise in
    order; and in every reachable state at most one row of admins
    references a given users.id. *)
Theorem admin_user_unique (engine : Engine) :
  (∀ db ts r0 id u blocked,
     declared db → db !! "admins" = Some ts → r0 ∈ ts_rows ts →
     get r0 "user_id" = VInt u →
     ∃ e db', insert engine db "admins" (new_Admin id (Some u) blocked) = Failed e db' ∧
              rows_of db' "admins" = ts_rows ts ∧
              (int4 (row_id ts id) → int4 u → ∃ n, e = UniqueViolation n)) ∧
  (∀ db u, reachable engine db →
           (count_of "user_id" (VInt u) (rows_of db "admins") ≤ 1)%nat).
Proof.
  split.
  - intros db ts r0 id u blocked Hd Hts Hr0 Hu.
    assert (ts_def ts = Admin) as Hdef.
    { apply (declared_def db); [done|solve_in|done]. }
    destruct (insert_collision engine db "admins" ts (new_Admin id (Some u) blocked)
                ("admins_user_id_key", ["user_id"]) r0) as (e & db' & Hins & He).
    + done.
    + rewrite Hdef. vm_compute. solve_in.
    + done.
    + rewrite Hdef, new_row_Admin. unfold agree. simpl. rewrite Hu.
      by rewrite bool_decide_eq_true_2.
    + exists e, db'. split; [done|]. split.
      * rewrite (insert_Failed_rows _ _ _ _ _ _ "admins" Hins). unfold rows_of.
        by rewrite Hts.
      * intros Hid Hiu. apply He. by apply presentable_Admin.
  - intros db u Hr.
    pose proof (reachable_declared _ _ Hr) as Hd.
    pose proof (reachable_constraints_hold _ _ Hr) as Hc.
    destruct (declared_table db Admin Hd) as (ts & Hts & Hdef); [solve_in|].
    simpl in Hts. unfold rows_of. rewrite Hts.
    apply unique_on_count; [done|].
    apply (Hc "admins" ts ("admins_user_id_key", ["user_id"])); [done|].
    rewrite Hdef. vm_compute. solve_in.
Qed.

(** C6, an instance: Alice is an admin; a second Admin row for her is
    rejected with a unique violation. *)
Lemma admin_user_unique_witness :
  ∃ n db', insert enforcing with_admin "admins" (new_Admin None (Some 1) None)
             = Failed (UniqueViolation n) db'.
Proof.
  destruct (proj1 (admin_user_unique enforcing) with_admin
              (mkTableState Admin
                 [ [("id", VInt 1); ("user_id", VInt 1); ("is_blocked", VBool false)] ] 2)
              [("id", VInt 1); ("user_id", VInt 1); ("is_blocked", VBool false)]
              None 1 None) as (e & db' & Hins & _ & He).
  - vm_compute; reflexivity.
  - vm_compute; reflexivity.
  - apply list_elem_of_here.
  - reflexivity.
  - destruct He as [n ->]; [int4_tac..|]. eauto.
Defined.

(** C7: with foreign keys enforced, a row that references a user who does
    not exist is rejected. The columns that reference users.id are
    profiles.user_id, admins.user_id, likes.user_id, likes.liked_user_id,
    matches.user_id, matches.liked_user_id, messages.sender_id and
    messages.receiver_id. In a database that holds the declared tables, an
    INSERT that gives one of them an integer no row of users has as its id
    is rejected and leaves every table's rows as they were; and the error
    is a foreign-key violation whenever the foreign key is all that is
    wrong, that is, whenever an engine that does not enforce foreign keys
    accepts the statement. *)
Theorem dangling_reference_rejected (engine : Engine) db tname c kw z :
  fk_enforced engine = true → declared db → (tname, c) ∈ user_references →
  assigned kw c = Some (VInt z) →
  (∀ u, u ∈ rows_of db "users" → get u "id" ≠ VInt z) →
  user_references =
    [ ("profiles", "user_id"); ("admins", "user_id");
      ("likes", "user_id"); ("likes", "liked_user_id");
      ("matches", "user_id"); ("matches", "liked_user_id");
      ("messages", "sender_id"); ("messages", "receiver_id") ] ∧
  ∃ e db', insert engine db tname kw = Failed e db' ∧
           (∀ t, rows_of db' t = rows_of db t) ∧
           (∀ db'', insert (mkEngine false) db tname kw = Ok db'' →
                    ∃ c', e = ForeignKeyViolation tname c').
Proof.
  intros Hen Hd Hin Hkw Hmiss. split; [reflexivity|].
  assert (∃ t ts, t ∈ metadata ∧ tablename t = tname ∧ tname ≠ "users" ∧
                  db !! tname = Some ts ∧ ts_def ts = t ∧
                  (c, mkForeignKey "users" "id" None) ∈ foreign_keys t ∧
                  get (new_row t (ts_seq ts) kw) c = VInt z) as
    (t & ts & Ht & Hname & Hne & Hts & Hdef & Hf & Hget).
  { vm_compute in Hin.
    repeat (apply elem_of_cons in Hin as [Hin|Hin]);
      [injection Hin as -> -> ..|by apply not_elem_of_nil in Hin].
    1: pose Profile as t. 2: pose Admin as t. 3,4: pose Like as t.
    5,6: pose Match as t. 7,8: pose Message as t.
    all: destruct (declared_table db t Hd) as (ts & Hts & Hdef); [solve_in|].
    all: exists t, ts.
    all: split; [solve_in|]; split; [reflexivity|]; split; [discriminate|].
    all: split; [exact Hts|]; split; [exact Hdef|]; split; [vm_compute; solve_in|].
    all: simpl; unfold new_cell; simpl; by rewrite Hkw. }
  subst t.
  destruct (insert_fk_rejected engine db tname ts kw (c, mkForeignKey "users" "id" None))
    as (e & db' & Hins & He); [done..| |].
  - simpl. rewrite Hget. apply missing_user_unsatisfied; [done|].
    intros u Hu. apply Hmiss. by rewrite rows_of_accepted_ne in Hu.
  - exists e, db'. split; [done|]. split; [|done].
    intros t'. by eapply insert_Failed_rows.
Qed.

(** C7, an instance: no user exists; a Like by user 7 is rejected on a
    foreign key. *)
Lemma dangling_reference_rejected_witness :
  ∃ c db', insert enforcing fresh "likes" (new_Like None (Some 7) None)
             = Failed (ForeignKeyViolation "likes" c) db' ∧
           ∀ t, rows_of db' t = rows_of fresh t.
Proof.
  destruct (dangling_reference_rejected enforcing fresh "likes" "user_id"
              (new_Like None (Some 7) None) 7)
    as (_ & e & db' & Hins & Hrows & He).
  - reflexivity.
  - vm_compute; reflexivity.
  - vm_compute. do 2 apply list_elem_of_further. apply list_elem_of_here.
  - reflexivity.
  - intros u Hu. vm_compute in Hu. by apply not_elem_of_nil in Hu.
  - destruct (He (state_after (insert permissive fresh "likes"
                                 (new_Like None (Some 7) None)))) as [c ->].
    + vm_compute; reflexivity.
    + eauto.
Defined.

(** C8: loading the module ensures the six tables and is idempotent. The
    declared tables are users, profiles, admins, likes, matches and
    messages; after [create_all] each of them exists, as declared and empty
    if it was not there before; a table that was there is left as it was,
    definition and rows; running [create_all] twice is running it once; and
    on a database that already holds the six tables it changes nothing. *)
Theorem create_all_ensures_tables db :
  tablename <$> metadata = ["users"; "profiles"; "admins"; "likes"; "matches"; "messages"] ∧
  (∀ t, t ∈ metadata → ∃ ts, create_all metadata db !! tablename t = Some ts ∧
                            (db !! tablename t = None → ts = mkTableState t [] 1)) ∧
  (∀ n ts, db !! n = Some ts → create_all metadata db !! n = Some ts) ∧
  create_all metadata (create_all metadata db) = create_all metadata db ∧
  ((∀ t, t ∈ metadata → is_Some (db !! tablename t)) → create_all metadata db = db).
Proof.
  split; [reflexivity|]. split; [|split; [|split]].
  - intros t Hin. destruct (create_all_exists metadata db t Hin) as [ts Hts].
    exists ts. split; [done|]. intros Hnone.
    apply create_all_lookup_inv in Hts as [Hts|(_ & t' & Hin' & Hname & ->)]; [congruence|].
    f_equal. revert Hname. clear -Hin Hin'. unfold metadata in *.
    repeat (apply elem_of_cons in Hin as [->|Hin]);
      try (by apply not_elem_of_nil in Hin);
      repeat (apply elem_of_cons in Hin' as [->|Hin']);
      try (by apply not_elem_of_nil in Hin'); done.
  - apply create_all_lookup_Some.
  - apply create_all_twice.
  - apply create_all_present.
Qed.

(** C8, an instance: on the database the module has just been loaded on,
    with Alice in it, loading the module again changes nothing. *)
Lemma create_all_ensures_tables_witness :
  create_all metadata (with_user enforcing) = with_user enforcing.
Proof.
  apply (create_all_ensures_tables (with_user enforcing)).
  intros t Hin. unfold metadata in Hin.
  repeat (apply elem_of_cons in Hin as [->|Hin]; [vm_compute; eauto|]).
  by apply not_elem_of_nil in Hin.
Defined.

(** C9: no cascade-delete rules are declared, and deleting a User row
    leaves the rows that reference it as they are, orphaned. No foreign key
    of the schema declares an [ondelete] rule, and a DELETE on users,
    accepted or not, never changes a row of another table. When the DELETE
    of user [u] is accepted, no row of users has id [u] afterwards and
    every other table is as before: each row of profiles, admins, likes,
    matches and messages that referenced [u] is still there, unchanged, and
    now names no user. *)
Theorem user_delete_never_cascades (engine : Engine) db u :
  declared db →
  (∀ t f, t ∈ metadata → f ∈ foreign_keys t → fk_ondelete (snd f) = None) ∧
  (∀ fuel p t, t ≠ "users" →
               state_after (delete_from engine fuel db "users" p) !! t = db !! t) ∧
  (∀ db', delete_user engine db u = Ok db' →
          (∀ g, g ∈ rows_of db' "users" → get g "id" ≠ VInt u) ∧
          (∀ t, t ≠ "users" → db' !! t = db !! t) ∧
          (∀ tname c r',
             (tname, c) ∈ user_references → r' ∈ rows_of db tname → get r' c = VInt u →
             r' ∈ rows_of db' tname ∧
             ¬ ∃ g, g ∈ rows_of db' "users" ∧ get g "id" = get r' c)).
Proof.
  intros Hd. pose proof (declared_no_cascade _ Hd) as Hnc.
  destruct (declared_table db User Hd) as (ts & Hts & Hdef); [solve_in|].
  simpl in Hts.
  split; [apply metadata_no_ondelete|]. split.
  - intros [|n] p t Hne; [done|].
    rewrite delete_from_no_cascade, Hts by done.
    destruct (fk_enforced engine); [destruct (first_dangling _ _ _ _)|]; simpl; try done.
    all: unfold after_delete; by rewrite lookup_insert_ne.
  - intros db' Hdel. unfold delete_user in Hdel.
    apply delete_Ok_inv in Hdel as (ts0 & Hts0 & -> & _); [|done].
    assert (ts0 = ts) as -> by congruence.
    assert (∀ g, g ∈ rows_of (after_delete db "users" ts (λ r, sql_eq (VInt u) (get r "id")))
                     "users" → get g "id" ≠ VInt u) as Hgone.
    { intros g Hg. unfold rows_of, after_delete in Hg. rewrite lookup_insert_eq in Hg.
      simpl in Hg. apply list_elem_of_In, filter_In in Hg as [_ Hg].
      apply negb_true_iff in Hg. intros Heq. rewrite Heq in Hg. simpl in Hg.
      by rewrite bool_decide_eq_true_2 in Hg. }
    assert (∀ t, t ≠ "users" →
                 after_delete db "users" ts (λ r, sql_eq (VInt u) (get r "id")) !! t = db !! t)
      as Hsame.
    { intros t Hne. unfold after_delete. by rewrite lookup_insert_ne. }
    split; [done|]. split; [done|].
    intros tname c r' Href Hr' Hc.
    destruct (user_reference_inv db tname c Hd Href) as (Hne & _).
    split.
    + unfold rows_of. rewrite Hsame by done. exact Hr'.
    + intros (g & Hg & Hgid). rewrite Hc in Hgid. by apply (Hgone g).
Qed.

(** C9, an instance: Alice has a profile, on an engine that does not
    enforce foreign keys. The DELETE is accepted, users is empty afterwards
    and the profile is still there, with user_id 1. *)
Lemma user_delete_never_cascades_witness :
  ∃ db', delete_user permissive (with_profile permissive) 1 = Ok db' ∧
         rows_of db' "users" = [] ∧
         rows_of db' "profiles" = [profile_row] ∧
         get profile_row "user_id" = VInt 1.
Proof.
  destruct (user_delete_never_cascades permissive (with_profile permissive) 1)
    as (_ & _ & Hdel); [vm_compute; reflexivity|].
  exists (state_after (delete_user permissive (with_profile permissive) 1)).
  assert (delete_user permissive (with_profile permissive) 1
          = Ok (state_after (delete_user permissive (with_profile permissive) 1))) as Hok.
  { vm_compute; reflexivity. }
  destruct (Hdel _ Hok) as (_ & Hsame & _).
  split; [exact Hok|]. split; [vm_compute; reflexivity|]. split; [|reflexivity].
  unfold rows_of at 1. rewrite Hsame by discriminate. vm_compute; reflexivity.
Defined.

(** Where foreign keys are enforced, a user that a row references cannot
    be deleted: Alice has a profile; the DELETE is rejected with a
    foreign-key violation on profiles.user_id, whatever the fuel, and the
    database is as before. *)
Lemma referenced_user_delete_rejected :
  reachable enforcing (with_profile enforcing) ∧
  (λ r, get r "user_id") <$> rows_of (with_profile enforcing) "profiles" = [VInt 1] ∧
  delete_user enforcing (with_profile enforcing) 1
    = Failed (ForeignKeyViolation "profiles" "user_id") (with_profile enforcing) ∧
  ∀ fuel db', delete_from enforcing fuel (with_profile enforcing) "users"
                (λ r, sql_eq (VInt 1) (get r "id")) ≠ Ok db'.
Proof.
  split; [do 2 apply reachable_insert; constructor|].
  split; [vm_compute; reflexivity|].
  split; [vm_compute; reflexivity|].
  intros [|n] db'; [discriminate|].
  rewrite delete_from_no_cascade.
  - vm_compute. discriminate.
  - apply declared_no_cascade, (reachable_declared enforcing).
    do 2 apply reachable_insert; constructor.
Qed.

(** C10: the references of likes, matches and messages admit NULL, those of
    profiles and admins do not. The six columns likes.user_id,
    likes.liked_user_id, matches.user_id, matches.liked_user_id,
    messages.sender_id and messages.receiver_id are nullable, while
    profiles.user_id and admins.user_id are not. In a database that holds
    the declared tables, a Like, a Match or a Message with NULL in one or
    both of its references is accepted and stored with the NULL, as long as
    the rest of the statement is in order: its id is a 32-bit integer no
    row of the table has, and a reference that is given is 32-bit and,
    where foreign keys are enforced, names an existing user. *)
Theorem null_references_accepted (engine : Engine) db id a b :
  declared db → a = None ∨ b = None → int4_opt a → int4_opt b →
  (fk_enforced engine = true → names_user db a ∧ names_user db b) →
  (nullable_in Like "user_id" = Some true ∧ nullable_in Like "liked_user_id" = Some true ∧
   nullable_in Match "user_id" = Some true ∧ nullable_in Match "liked_user_id" = Some true ∧
   nullable_in Message "sender_id" = Some true ∧
   nullable_in Message "receiver_id" = Some true ∧
   nullable_in Profile "user_id" = Some false ∧ nullable_in Admin "user_id" = Some false) ∧
  (∀ ts, db !! "likes" = Some ts → id_free ts id →
     ∃ db', insert engine db "likes" (new_Like id a b) = Ok db' ∧
            rows_of db' "likes" =
              ts_rows ts ++ [ [("id", VInt (row_id ts id)); ("user_id", cell a);
                               ("liked_user_id", cell b)] ]) ∧
  (∀ ts, db !! "matches" = Some ts → id_free ts id →
     ∃ db', insert engine db "matches" (new_Match id a b) = Ok db' ∧
            rows_of db' "matches" =
              ts_rows ts ++ [ [("id", VInt (row_id ts id)); ("user_id", cell a);
                               ("liked_user_id", cell b)] ]) ∧
  (∀ ts m, db !! "messages" = Some ts → id_free ts id →
     ∃ db', insert engine db "messages" (new_Message id a b m) = Ok db' ∧
            rows_of db' "messages" =
              ts_rows ts ++ [ [("id", VInt (row_id ts id)); ("sender_id", cell a);
                               ("receiver_id", cell b);
                               ("message", match m with Some s => VStr s | None => VNull end)] ]).
Proof.
  intros Hd Hnull Ha Hb Hfk. split; [by repeat split|].
  split; [|split].
  - intros ts Hts Hid. by apply insert_Like_Ok.
  - intros ts Hts Hid. apply insert_Match_Ok; try done.
    intros r' _. by apply null_pair_agree.
  - intros ts m Hts Hid. by apply insert_Message_Ok.
Qed.

(** C10, an instance: on the database the module has just been loaded on, a
    Like, a Match and a Message with NULL in both references are accepted. *)
Lemma null_references_accepted_witness :
  (∃ db', insert enforcing fresh "likes" (new_Like None None None) = Ok db' ∧
          rows_of db' "likes" =
            [ [("id", VInt 1); ("user_id", VNull); ("liked_user_id", VNull)] ]) ∧
  (∃ db', insert enforcing fresh "matches" (new_Match None None None) = Ok db' ∧
          rows_of db' "matches" =
            [ [("id", VInt 1); ("user_id", VNull); ("liked_user_id", VNull)] ]) ∧
  (∃ db', insert enforcing fresh "messages" (new_Message None None None None) = Ok db' ∧
          rows_of db' "messages" =
            [ [("id", VInt 1); ("sender_id", VNull); ("receiver_id", VNull);
               ("message", VNull)] ]).
Proof.
  destruct (null_references_accepted enforcing fresh None None None)
    as (_ & Hlikes & Hmatches & Hmessages).
  - vm_compute; reflexivity.
  - by left.
  - exact I.
  - exact I.
  - intros _. split; exact I.
  - assert (∀ t, id_free (mkTableState t [] 1) None) as Hfree.
    { intros t. split; [int4_tac|]. intros r Hr. by apply not_elem_of_nil in Hr. }
    split; [|split].
    + apply (Hlikes (mkTableState Like [] 1)); [vm_compute; reflexivity|apply Hfree].
    + apply (Hmatches (mkTableState Match [] 1)); [vm_compute; reflexivity|apply Hfree].
    + apply (Hmessages (mkTableState Message [] 1) None);
        [vm_compute; reflexivity|apply Hfree].
Defined.

(** * Further properties of the schema *)

(** ** Acceptance of an INSERT, stage by stage *)

Lemma fits_int4_inv z : fits Integer (VInt z) = true → int4 z.
Proof.
  unfold fits, int4. simpl.
  intros [H1%Z.leb_le H2%Z.leb_le]%andb_true_iff. done.
Qed.

Section Accept.
Context (engine : Engine).

Lemma insert_Ok_sequence db tname kw db' ts :
  insert engine db tname kw = Ok db' → db !! tname = Some ts →
  uses_sequence (ts_def ts) kw && (int4_max <? ts_seq ts) = false.
Proof.
  unfold insert. intros H Hts. rewrite Hts in H.
  destruct (unknown_column _ _); [discriminate|].
  destruct (ill_typed _ _); [discriminate|].
  by destruct (uses_sequence _ _ && _).
Qed.

(** An INSERT is accepted exactly when the statement is presentable, the
    row collides with no row of the table, and, where foreign keys are
    enforced, every reference of the row is satisfied. *)
Lemma insert_Ok_iff db tname ts kw db' :
  db !! tname = Some ts →
  insert engine db tname kw = Ok db' ↔
  db' = accepted db tname ts kw ∧
  presentable ts kw ∧
  unique_violation (ts_def ts) (ts_rows ts) (new_row (ts_def ts) (ts_seq ts) kw) = None ∧
  (fk_enforced engine = true →
   fk_violation (accepted db tname ts kw) (ts_def ts)
                (new_row (ts_def ts) (ts_seq ts) kw) = None).
Proof.
  intros Hts. split.
  - intros H. pose proof (insert_Ok_sequence _ _ _ _ _ H Hts) as Hseq.
    apply insert_Ok_inv in H as (ts' & Hts' & -> & H1 & H2 & H3 & H4 & H5).
    assert (ts' = ts) by congruence. subst ts'. by repeat split.
  - intros (-> & Hp & Hu & Hf). by apply insert_Ok_intro.
Qed.

End Accept.

Lemma new_row_User seq id email name password gender birth_date preferences location age :
  new_row User seq (new_User id email name password gender birth_date preferences
                             location age) =
  [("id", cell id);
   ("email", match email with Some s => VStr s | None => VNull end);
   ("name", match name with Some s => VStr s | None => VNull end);
   ("password", match password with Some s => VStr s | None => VNull end);
   ("gender", match gender with Some s => VStr s | None => VNull end);
   ("birth_date", match birth_date with Some t => VTime t | None => VNull end);
   ("preferences", match preferences with Some s => VStr s | None => VNull end);
   ("location", match location with Some s => VStr s | None => VNull end);
   ("age", cell age)].
Proof.
  by destruct id, email, name, password, gender, birth_date, preferences, location, age.
Qed.

Lemma assigned_app_kwarg k v rest c :
  assigned (kwarg k v ++ rest) c =
  if String.eqb k c
  then match v with Some x => Some x | None => assigned rest c end
  else assigned rest c.
Proof. destruct v; simpl; by destruct (String.eqb k c). Qed.

Lemma assigned_kwarg k v c :
  assigned (kwarg k v) c = if String.eqb k c then v else None.
Proof. destruct v; simpl; by destruct (String.eqb k c). Qed.

(** Reads a column off a statement built from keyword arguments. *)
Ltac read_kwargs :=
  rewrite ?assigned_app_kwarg, ?assigned_kwarg; cbn [String.eqb Ascii.eqb Bool.eqb];
  repeat match goal with
         | |- context [match ?v with Some _ => _ | None => _ end] => is_var v; destruct v
         | |- context [_ <$> ?v] => is_var v; destruct v
         end; try reflexivity.

Lemma assigned_new_User id email name password gender birth_date preferences location age :
  let kw := new_User id email name password gender birth_date preferences location age in
  assigned kw "id" = VInt <$> id ∧ assigned kw "email" = VStr <$> email ∧
  assigned kw "name" = VStr <$> name ∧ assigned kw "password" = VStr <$> password ∧
  assigned kw "gender" = VStr <$> gender ∧ assigned kw "birth_date" = VTime <$> birth_date ∧
  assigned kw "preferences" = VStr <$> preferences ∧
  assigned kw "location" = VStr <$> location ∧ assigned kw "age" = VInt <$> age.
Proof.
  unfold new_User. repeat split; read_kwargs.
Qed.

Lemma ill_typed_None_intro t kw :
  (∀ c v, c ∈ columns t → assigned kw (col_name c) = Some v →
          fits (col_type c) v = true) →
  ill_typed t kw = None.
Proof.
  intros H. unfold ill_typed. destruct (find _ _) as [c|] eqn:Hf; [|done].
  apply find_some in Hf as [Hin Hbad]. apply list_elem_of_In in Hin.
  destruct (assigned kw (col_name c)) as [v|] eqn:Ha; [|done].
  by rewrite (H c v Hin Ha) in Hbad.
Qed.

Lemma null_violation_None t r c :
  null_violation t r = None → c ∈ columns t → is_nullable c = false →
  get r (col_name c) ≠ VNull.
Proof.
  unfold null_violation. intros Hnone Hin Hn Hnull.
  destruct (find _ _) eqn:Hf; [discriminate|].
  apply find_none with (x := c) in Hf; [|by apply list_elem_of_In].
  rewrite Hn, Hnull in Hf. by rewrite bool_decide_eq_true_2 in Hf.
Qed.

Lemma null_violation_None_intro t r :
  (∀ c, c ∈ columns t → is_nullable c = false → get r (col_name c) ≠ VNull) →
  null_violation t r = None.
Proof.
  intros H. unfold null_violation. destruct (find _ _) as [c|] eqn:Hf; [|done].
  apply find_some in Hf as [Hin [Hn Hnull]%andb_true_iff].
  apply negb_true_iff in Hn. apply bool_decide_eq_true in Hnull.
  by destruct (H c (proj2 (list_elem_of_In _ _) Hin) Hn).
Qed.

Lemma unknown_column_User id email name password gender birth_date preferences location age :
  unknown_column User (new_User id email name password gender birth_date preferences
                                location age) = None.
Proof.
  by destruct id, email, name, password, gender, birth_date, preferences, location, age.
Qed.

Lemma ill_typed_User id email name password gender birth_date preferences location age :
  ill_typed User (new_User id email name password gender birth_date preferences
                           location age) = None ↔ int4_opt id ∧ int4_opt age.
Proof.
  destruct (assigned_new_User id email name password gender birth_date preferences
              location age) as (H1 & H2 & H3 & H4 & H5 & H6 & H7 & H8 & H9).
  split.
  - intros Hty. split.
    + destruct id as [i|]; [|done]. apply fits_int4_inv.
      apply (ill_typed_None User _ (column "id" Integer [primary_key true; autoincrement false])
               _ Hty); [solve_in|exact H1].
    + destruct age as [g|]; [|done]. apply fits_int4_inv.
      apply (ill_typed_None User _ (column "age" Integer []) _ Hty); [solve_in|exact H9].
  - intros [Hid Hage]. apply ill_typed_None_intro. intros c v Hin Ha.
    unfold User in Hin. simpl in Hin.
    repeat (apply elem_of_cons in Hin as [->|Hin]); [..|by apply not_elem_of_nil in Hin].
    all: simpl in Ha.
    + rewrite H1 in Ha. destruct id; [|done]. injection Ha as <-. by apply fits_int4.
    + rewrite H2 in Ha. destruct email; [|done]. by injection Ha as <-.
    + rewrite H3 in Ha. destruct name; [|done]. by injection Ha as <-.
    + rewrite H4 in Ha. destruct password; [|done]. by injection Ha as <-.
    + rewrite H5 in Ha. destruct gender; [|done]. by injection Ha as <-.
    + rewrite H6 in Ha. destruct birth_date; [|done]. by injection Ha as <-.
    + rewrite H7 in Ha. destruct preferences; [|done]. by injection Ha as <-.
    + rewrite H8 in Ha. destruct location; [|done]. by injection Ha as <-.
    + rewrite H9 in Ha. destruct age; [|done]. injection Ha as <-. by apply fits_int4.
Qed.

Lemma null_violation_User seq id email name password gender birth_date preferences
  location age :
  null_violation User
    (new_row User seq (new_User id email name password gender birth_date preferences
                                location age)) = None ↔
  is_Some id ∧ is_Some email ∧ is_Some name ∧ is_Some password.
Proof.
  rewrite new_row_User. unfold null_violation.
  destruct id, email, name, password; simpl; split; try discriminate; try done.
  all: intros (H1 & H2 & H3 & H4); by first [destruct H1|destruct H2|destruct H3|destruct H4].
Qed.

(** ** Which rows each table accepts *)

Lemma insert_accepts_iff engine db tname ts kw :
  db !! tname = Some ts →
  (∃ db', insert engine db tname kw = Ok db') ↔
  presentable ts kw ∧
  unique_violation (ts_def ts) (ts_rows ts) (new_row (ts_def ts) (ts_seq ts) kw) = None ∧
  (fk_enforced engine = true →
   fk_violation (accepted db tname ts kw) (ts_def ts)
                (new_row (ts_def ts) (ts_seq ts) kw) = None).
Proof.
  intros Hts. split.
  - intros [db' H]. by apply (insert_Ok_iff engine db tname ts kw db' Hts) in H as (_ & ?).
  - intros H. eexists. by apply (insert_Ok_iff engine db tname ts kw _ Hts).
Qed.

Lemma pkey_agree_false i (rest r' : row) :
  get r' "id" ≠ VInt i → agree ["id"] (("id", VInt i) :: rest) r' = false.
Proof. intros H. unfold agree. simpl. by rewrite bool_decide_eq_false_2. Qed.

Lemma pkey_agree_false_inv i (rest r' : row) :
  agree ["id"] (("id", VInt i) :: rest) r' = false → get r' "id" ≠ VInt i.
Proof.
  unfold agree. simpl. intros H Heq. rewrite Heq in H.
  by rewrite bool_decide_eq_true_2 in H.
Qed.

(** X1: when a User row is accepted. On a database holding the declared
    tables, the INSERT of a User is accepted exactly when it gives an id,
    the id is a 32-bit integer that no stored user has, email, name and
    password are given, and age, if given, is a 32-bit integer. Nothing
    else is asked: gender, birth_date, preferences, location and age may be
    left out, and no column but id is unique, so two users may share an
    e-mail address. *)
Theorem user_accepted_iff (engine : Engine) db ts id email name password gender
  birth_date preferences location age :
  declared db → db !! "users" = Some ts →
  ((∃ db', insert engine db "users"
             (new_User id email name password gender birth_date preferences location age)
           = Ok db') ↔
   (∃ i, id = Some i ∧ int4 i ∧ ∀ r, r ∈ ts_rows ts → get r "id" ≠ VInt i) ∧
   is_Some email ∧ is_Some name ∧ is_Some password ∧ int4_opt age).
Proof.
  intros Hd Hts.
  assert (ts_def ts = User) as Hdef.
  { apply (declared_def db); [done|solve_in|done]. }
  rewrite (insert_accepts_iff engine db "users" ts _ Hts). unfold presentable.
  rewrite Hdef, unknown_column_User, ill_typed_User, uses_sequence_User,
    null_violation_User, new_row_User.
  split.
  - intros ((_ & [Hid Hage] & _ & (Hsid & He & Hn & Hp)) & Hu & _).
    destruct Hsid as [i ->]. split; [|done].
    exists i. split; [done|]. split; [done|].
    intros r' Hr'. eapply pkey_agree_false_inv.
    apply (unique_violation_None _ _ _ ("users_pkey", ["id"]) _ Hu); [solve_in|done].
  - intros ((i & -> & Hi & Hfree) & He & Hn & Hp & Hage).
    split; [by eauto|]. split.
    + apply unique_violation_None_intro. intros u r' Hu Hr'. vm_compute in Hu.
      apply list_elem_of_singleton in Hu as ->. by apply pkey_agree_false, Hfree.
    + intros _. by apply fk_violation_None_intro; intros f Hf; vm_compute in Hf;
        apply not_elem_of_nil in Hf.
Qed.

(** X1, an instance: with Alice stored, a second user who gives another id
    and Alice's e-mail address is accepted. *)
Lemma user_accepted_iff_witness :
  ∃ db', insert enforcing (with_user enforcing) "users"
           (new_User (Some 2) (Some "alice@example.org") (Some "Alice")
                     (Some "secret") None None None None None) = Ok db'.
Proof.
  apply (proj2 (user_accepted_iff enforcing (with_user enforcing)
                  (mkTableState User [alice_row] 1)
                  (Some 2) (Some "alice@example.org") (Some "Alice") (Some "secret")
                  None None None None None
                  ltac:(vm_compute; reflexivity) ltac:(vm_compute; reflexivity))).
  split; [|done].
  exists 2. split; [done|]. split; [int4_tac|].
  intros r Hr. apply list_elem_of_singleton in Hr as ->. discriminate.
Defined.

(** Reads the 32-bit bounds off a type check that has passed. *)
Ltac unstage H :=
  unfold ill_typed in H; simpl in H;
  repeat match type of H with
         | context [fits Integer (VInt ?z)] =>
             let E := fresh "Hfit" in
             destruct (fits Integer (VInt z)) eqn:E;
             [apply fits_int4_inv in E|]; simpl in H; try discriminate H
         end.

Lemma sequence_int4 seq : 1 ≤ seq → (int4_max <? seq) = false → int4 seq.
Proof. intros H1 H2%Z.ltb_ge. unfold int4, int4_min. lia. Qed.

Lemma presentable_Like_inv ts id a b :
  ts_def ts = Like → 1 ≤ ts_seq ts → presentable ts (new_Like id a b) →
  int4 (row_id ts id) ∧ int4_opt a ∧ int4_opt b.
Proof.
  intros Hdef Hseq (_ & Hty & Hex & _). rewrite Hdef in *.
  destruct id as [i|], a as [x|], b as [y|]; unstage Hty; simpl;
    try (apply (sequence_int4 _ Hseq) in Hex); done.
Qed.

Lemma presentable_Message_inv ts id a b m :
  ts_def ts = Message → 1 ≤ ts_seq ts → presentable ts (new_Message id a b m) →
  int4 (row_id ts id) ∧ int4_opt a ∧ int4_opt b.
Proof.
  intros Hdef Hseq (_ & Hty & Hex & _). rewrite Hdef in *.
  destruct id as [i|], a as [x|], b as [y|], m; unstage Hty; simpl;
    try (apply (sequence_int4 _ Hseq) in Hex); done.
Qed.

Lemma presentable_Match_inv ts id a b :
  ts_def ts = Match → 1 ≤ ts_seq ts → presentable ts (new_Match id a b) →
  int4 (row_id ts id) ∧ int4_opt a ∧ int4_opt b.
Proof.
  intros Hdef Hseq (_ & Hty & Hex & _). rewrite Hdef in *.
  destruct id as [i|], a as [x|], b as [y|]; unstage Hty; simpl;
    try (apply (sequence_int4 _ Hseq) in Hex); done.
Qed.

Lemma new_row_Profile seq id u photo description interests :
  new_row Profile seq (new_Profile id u photo description interests) =
  [("id", VInt (match id with Some i => i | None => seq end));
   ("user_id", cell u);
   ("photo", match photo with Some bs => VBytes bs | None => VNull end);
   ("description", match description with Some s => VStr s | None => VNull end);
   ("interests", match interests with Some s => VStr s | None => VNull end)].
Proof. by destruct id, u, photo, description, interests. Qed.

Lemma presentable_Profile ts id u photo description interests :
  ts_def ts = Profile → int4 (row_id ts id) → int4 u →
  presentable ts (new_Profile id (Some u) photo description interests).
Proof.
  intros Hdef Hid Hu. unfold presentable. rewrite Hdef.
  split; [by destruct id, photo, description, interests|].
  split; [unfold ill_typed; stage|].
  split; [|by rewrite new_row_Profile].
  destruct id; simpl in Hid; [by destruct photo, description, interests|].
  rewrite (not_exhausted _ Hid). apply andb_false_r.
Qed.

Lemma presentable_Profile_inv ts id user_id photo description interests :
  ts_def ts = Profile → 1 ≤ ts_seq ts →
  presentable ts (new_Profile id user_id photo description interests) →
  int4 (row_id ts id) ∧ ∃ u, user_id = Some u ∧ int4 u.
Proof.
  intros Hdef Hseq (_ & Hty & Hex & Hnull). rewrite Hdef in *.
  rewrite new_row_Profile in Hnull.
  destruct user_id as [u|]; [|discriminate Hnull].
  destruct id as [i|], photo, description, interests; unstage Hty; simpl;
    try (apply (sequence_int4 _ Hseq) in Hex); eauto.
Qed.

Lemma presentable_Admin_inv ts id user_id blocked :
  ts_def ts = Admin → 1 ≤ ts_seq ts →
  presentable ts (new_Admin id user_id blocked) →
  int4 (row_id ts id) ∧ ∃ u, user_id = Some u ∧ int4 u.
Proof.
  intros Hdef Hseq (_ & Hty & Hex & Hnull). rewrite Hdef in *.
  rewrite new_row_Admin in Hnull.
  destruct user_id as [u|]; [|discriminate Hnull].
  destruct id as [i|], blocked; unstage Hty; simpl;
    try (apply (sequence_int4 _ Hseq) in Hex); eauto.
Qed.

(** A satisfied reference to users.id, read in the database before the row
    went in. *)
Lemma satisfied_before db tname ts kw a :
  tname ≠ "users" →
  fk_satisfied (accepted db tname ts kw) (mkForeignKey "users" "id" None) (cell a) = true →
  names_user db a.
Proof.
  intros Hne Hsat. apply satisfied_names_user in Hsat.
  eapply names_user_rows; [|exact Hsat]. symmetry. by apply rows_of_accepted_ne.
Qed.

Lemma names_user_after db tname ts kw a :
  tname ≠ "users" → names_user db a →
  fk_satisfied (accepted db tname ts kw) (mkForeignKey "users" "id" None) (cell a) = true.
Proof.
  intros Hne Hn. apply names_user_satisfied.
  eapply names_user_rows; [|exact Hn]. by apply rows_of_accepted_ne.
Qed.

Lemma reachable_sequence engine db (t : string) ts :
  reachable engine db → db !! t = Some ts → 1 ≤ ts_seq ts.
Proof. intros Hr Hts. destruct (reachable_well_typed _ _ Hr) as [_ Hp]. by eapply Hp. Qed.

Lemma id_free_of_unique ts (rest : row) id :
  int4 (row_id ts id) →
  (∀ r', r' ∈ ts_rows ts → agree ["id"] (("id", VInt (row_id ts id)) :: rest) r' = false) →
  id_free ts id.
Proof.
  intros Hid H. split; [done|]. intros r Hr. eapply pkey_agree_false_inv. by apply H.
Qed.

(** X2: when a Profile row is accepted, and what is stored. In a reachable
    state, the INSERT of a Profile is accepted exactly when its id (given,
    or the next value of the sequence) is a free 32-bit integer and user_id
    is given, is a 32-bit integer and, under enforcement, names a stored
    user. The stored row holds the five columns, with NULL for photo,
    description and interests when they are not given. *)
Theorem profile_accepted_iff (engine : Engine) db ts id user_id photo description
  interests :
  reachable engine db → db !! "profiles" = Some ts →
  ((∃ db', insert engine db "profiles"
             (new_Profile id user_id photo description interests) = Ok db') ↔
   id_free ts id ∧
   ∃ u, user_id = Some u ∧ int4 u ∧
        (fk_enforced engine = true → names_user db (Some u))) ∧
  (∀ db', insert engine db "profiles"
            (new_Profile id user_id photo description interests) = Ok db' →
          rows_of db' "profiles" =
            ts_rows ts ++
            [ [("id", VInt (row_id ts id)); ("user_id", cell user_id);
               ("photo", match photo with Some bs => VBytes bs | None => VNull end);
               ("description", match description with Some s => VStr s | None => VNull end);
               ("interests", match interests with Some s => VStr s | None => VNull end)] ]).
Proof.
  intros Hr Hts. pose proof (reachable_declared _ _ Hr) as Hd.
  pose proof (reachable_sequence _ _ _ _ Hr Hts) as Hseq.
  assert (ts_def ts = Profile) as Hdef.
  { apply (declared_def db); [done|solve_in|done]. }
  split.
  - rewrite (insert_accepts_iff engine db "profiles" ts _ Hts). split.
    + intros (Hp & Hu & Hf).
      destruct (presentable_Profile_inv _ _ _ _ _ _ Hdef Hseq Hp) as (Hid & u & -> & Hiu).
      rewrite Hdef, new_row_Profile, row_id_eq in Hu, Hf. split.
      * eapply id_free_of_unique; [exact Hid|]. intros r' Hr'.
        apply (unique_violation_None _ _ _ ("profiles_pkey", ["id"]) _ Hu); [solve_in|done].
      * exists u. split; [done|]. split; [done|]. intros Hen.
        apply (satisfied_before db "profiles" ts
                 (new_Profile id (Some u) photo description interests)); [done|].
        apply (fk_violation_None _ _ _ ("user_id", mkForeignKey "users" "id" None) (Hf Hen)).
        vm_compute. solve_in.
    + intros (Hid & u & -> & Hiu & Hfk). split; [|split].
      * apply presentable_Profile; [done|apply Hid|done].
      * apply unique_violation_None_intro. rewrite Hdef, new_row_Profile, row_id_eq.
        intros c r' Hc Hr'. vm_compute in Hc.
        apply list_elem_of_singleton in Hc as ->. by apply id_free_agree.
      * intros Hen. apply fk_violation_None_intro. rewrite Hdef, new_row_Profile.
        intros f Hf. vm_compute in Hf. apply list_elem_of_singleton in Hf as ->.
        apply (names_user_after db "profiles" ts _ (Some u)); [done|by apply Hfk].
  - intros db' Hins. apply (insert_Ok_iff engine db "profiles" ts _ db' Hts) in Hins as (-> & _).
    by rewrite rows_of_accepted, Hdef, new_row_Profile.
Qed.

(** X2, an instance: a profile for Alice. *)
Lemma profile_accepted_iff_witness :
  ∃ db', insert enforcing (with_user enforcing) "profiles"
           (new_Profile None (Some 1) None None None) = Ok db'.
Proof.
  apply (proj2 (proj1 (profile_accepted_iff enforcing (with_user enforcing)
                         (mkTableState Profile [] 1) None (Some 1) None None None
                         ltac:(apply reachable_insert; constructor)
                         ltac:(vm_compute; reflexivity)))).
  split.
  - split; [int4_tac|]. by intros r Hr%not_elem_of_nil.
  - exists 1. split; [done|]. split; [int4_tac|]. intros _.
    exists alice_row. split; [vm_compute; apply list_elem_of_here|reflexivity].
Defined.

(** X3: when an Admin row is accepted, and what is stored. In a reachable
    state, the INSERT of an Admin is accepted exactly when its id is a free
    32-bit integer and user_id is given, is a 32-bit integer, is the
    user_id of no stored admin and, under enforcement, names a stored user.
    The stored row holds is_blocked as given, and false (the declared
    default) when it is not given. *)
Theorem admin_accepted_iff (engine : Engine) db ts id user_id is_blocked :
  reachable engine db → db !! "admins" = Some ts →
  ((∃ db', insert engine db "admins" (new_Admin id user_id is_blocked) = Ok db') ↔
   id_free ts id ∧
   ∃ u, user_id = Some u ∧ int4 u ∧
        (∀ r, r ∈ ts_rows ts → get r "user_id" ≠ VInt u) ∧
        (fk_enforced engine = true → names_user db (Some u))) ∧
  (∀ db', insert engine db "admins" (new_Admin id user_id is_blocked) = Ok db' →
          rows_of db' "admins" =
            ts_rows ts ++
            [ [("id", VInt (row_id ts id)); ("user_id", cell user_id);
               ("is_blocked",
                VBool (match is_blocked with Some b => b | None => false end))] ]).
Proof.
  intros Hr Hts. pose proof (reachable_declared _ _ Hr) as Hd.
  pose proof (reachable_sequence _ _ _ _ Hr Hts) as Hseq.
  assert (ts_def ts = Admin) as Hdef.
  { apply (declared_def db); [done|solve_in|done]. }
  split.
  - rewrite (insert_accepts_iff engine db "admins" ts _ Hts). split.
    + intros (Hp & Hu & Hf).
      destruct (presentable_Admin_inv _ _ _ _ Hdef Hseq Hp) as (Hid & u & -> & Hiu).
      rewrite Hdef, new_row_Admin, row_id_eq in Hu, Hf. split.
      * eapply id_free_of_unique; [exact Hid|]. intros r' Hr'.
        apply (unique_violation_None _ _ _ ("admins_pkey", ["id"]) _ Hu); [solve_in|done].
      * exists u. split; [done|]. split; [done|]. split.
        -- intros r' Hr' Heq.
           pose proof (unique_violation_None _ _ _ ("admins_user_id_key", ["user_id"]) r' Hu)
             as Hag.
           unfold agree in Hag. simpl in Hag. rewrite Heq in Hag.
           rewrite bool_decide_eq_true_2 in Hag by done.
           discriminate Hag; [vm_compute; solve_in|done].
        -- intros Hen.
           apply (satisfied_before db "admins" ts (new_Admin id (Some u) is_blocked)); [done|].
           apply (fk_violation_None _ _ _ ("user_id", mkForeignKey "users" "id" None) (Hf Hen)).
           vm_compute. solve_in.
    + intros (Hid & u & -> & Hiu & Hfree & Hfk). split; [|split].
      * apply presentable_Admin; [done|apply Hid|done].
      * apply unique_violation_None_intro. rewrite Hdef, new_row_Admin, row_id_eq.
        intros c r' Hc Hr'. vm_compute in Hc.
        apply elem_of_cons in Hc as [->|Hc]; [|apply list_elem_of_singleton in Hc as ->].
        -- by apply id_free_agree.
        -- unfold agree. simpl. rewrite bool_decide_eq_false_2; [done|].
           intros Heq. by apply (Hfree r').
      * intros Hen. apply fk_violation_None_intro. rewrite Hdef, new_row_Admin.
        intros f Hf. vm_compute in Hf. apply list_elem_of_singleton in Hf as ->.
        apply (names_user_after db "admins" ts _ (Some u)); [done|by apply Hfk].
  - intros db' Hins. apply (insert_Ok_iff engine db "admins" ts _ db' Hts) in Hins as (-> & _).
    by rewrite rows_of_accepted, Hdef, new_row_Admin.
Qed.

(** X3, an instance: Alice becomes an admin; is_blocked is stored as false. *)
Lemma admin_accepted_iff_witness :
  ∃ db', insert enforcing (with_user enforcing) "admins" (new_Admin None (Some 1) None)
           = Ok db' ∧
         rows_of db' "admins" =
           [ [("id", VInt 1); ("user_id", VInt 1); ("is_blocked", VBool false)] ].
Proof.
  destruct (admin_accepted_iff enforcing (with_user enforcing)
              (mkTableState Admin [] 1) None (Some 1) None
              ltac:(apply reachable_insert; constructor)
              ltac:(vm_compute; reflexivity)) as [Hiff Hrow].
  destruct (proj2 Hiff) as [db' Hins].
  - split.
    + split; [int4_tac|]. by intros r Hr%not_elem_of_nil.
    + exists 1. split; [done|]. split; [int4_tac|].
      split; [by intros r Hr%not_elem_of_nil|]. intros _.
      exists alice_row. split; [vm_compute; apply list_elem_of_here|reflexivity].
  - exists db'. split; [done|]. exact (Hrow db' Hins).
Defined.

(** X4: when a Message row is accepted. In a reachable state, the INSERT of
    a Message is accepted exactly when its id is a free 32-bit integer,
    sender_id and receiver_id are NULL or 32-bit integers and, under
    enforcement, each one that is given names a stored user. The text of
    the message plays no part: it may be left out. *)
Theorem message_accepted_iff (engine : Engine) db ts id sender_id receiver_id message :
  reachable engine db → db !! "messages" = Some ts →
  ((∃ db', insert engine db "messages"
             (new_Message id sender_id receiver_id message) = Ok db') ↔
   id_free ts id ∧ int4_opt sender_id ∧ int4_opt receiver_id ∧
   (fk_enforced engine = true → names_user db sender_id ∧ names_user db receiver_id)).
Proof.
  intros Hr Hts. pose proof (reachable_declared _ _ Hr) as Hd.
  pose proof (reachable_sequence _ _ _ _ Hr Hts) as Hseq.
  assert (ts_def ts = Message) as Hdef.
  { apply (declared_def db); [done|solve_in|done]. }
  split.
  - intros [db' Hins]. pose proof Hins as Hacc.
    apply (insert_Ok_iff engine db "messages" ts _ db' Hts) in Hacc as (_ & Hp & Hu & Hf).
    destruct (presentable_Message_inv _ _ _ _ _ Hdef Hseq Hp) as (Hid & Ha & Hb).
    rewrite Hdef, new_row_Message, row_id_eq in Hu, Hf. split; [|split; [done|split; [done|]]].
    + eapply id_free_of_unique; [exact Hid|]. intros r' Hr'.
      apply (unique_violation_None _ _ _ ("messages_pkey", ["id"]) _ Hu); [solve_in|done].
    + intros Hen. split.
      * apply (satisfied_before db "messages" ts
                 (new_Message id sender_id receiver_id message)); [done|].
        apply (fk_violation_None _ _ _ ("sender_id", mkForeignKey "users" "id" None) (Hf Hen)).
        vm_compute. solve_in.
      * apply (satisfied_before db "messages" ts
                 (new_Message id sender_id receiver_id message)); [done|].
        apply (fk_violation_None _ _ _ ("receiver_id", mkForeignKey "users" "id" None)
                 (Hf Hen)).
        vm_compute. solve_in.
  - intros (Hid & Ha & Hb & Hfk).
    destruct (insert_Message_Ok engine db ts id sender_id receiver_id message)
      as (db' & Hins & _); eauto.
Qed.

(** X4, an instance: a message from Alice to Bob. *)
Lemma message_accepted_iff_witness :
  ∃ db', insert enforcing (two_users enforcing) "messages"
           (new_Message None (Some 1) (Some 2) (Some "hello")) = Ok db'.
Proof.
  apply (proj2 (message_accepted_iff enforcing (two_users enforcing)
                  (mkTableState Message [] 1) None (Some 1) (Some 2) (Some "hello")
                  ltac:(do 2 apply reachable_insert; constructor)
                  ltac:(vm_compute; reflexivity))).
  split; [split; [int4_tac|by intros r Hr%not_elem_of_nil]|].
  split; [int4_tac|]. split; [int4_tac|]. intros _. split.
  - exists alice_row. split; [vm_compute; solve_in|reflexivity].
  - exists (new_row User 1 bob). split; [vm_compute; solve_in|reflexivity].
Defined.

(** X5: when a Match row is accepted. In a reachable state, the INSERT of a
    Match is accepted exactly when its id is a free 32-bit integer, user_id
    and liked_user_id are NULL or 32-bit integers, no stored match holds the
    same pair when both are given (unique_match) and, under enforcement,
    each one that is given names a stored user. *)
Theorem match_accepted_iff (engine : Engine) db ts id user_id liked_user_id :
  reachable engine db → db !! "matches" = Some ts →
  ((∃ db', insert engine db "matches" (new_Match id user_id liked_user_id) = Ok db') ↔
   id_free ts id ∧ int4_opt user_id ∧ int4_opt liked_user_id ∧
   (∀ r a b, r ∈ ts_rows ts → user_id = Some a → liked_user_id = Some b →
             get r "user_id" = VInt a → get r "liked_user_id" ≠ VInt b) ∧
   (fk_enforced engine = true → names_user db user_id ∧ names_user db liked_user_id)).
Proof.
  intros Hr Hts. pose proof (reachable_declared _ _ Hr) as Hd.
  pose proof (reachable_sequence _ _ _ _ Hr Hts) as Hseq.
  assert (ts_def ts = Match) as Hdef.
  { apply (declared_def db); [done|solve_in|done]. }
  split.
  - intros [db' Hins]. pose proof Hins as Hacc.
    apply (insert_Ok_iff engine db "matches" ts _ db' Hts) in Hacc as (_ & Hp & Hu & Hf).
    destruct (presentable_Match_inv _ _ _ _ Hdef Hseq Hp) as (Hid & Ha & Hb).
    rewrite Hdef, new_row_Match, row_id_eq in Hu, Hf.
    split; [|split; [done|split; [done|split]]].
    + eapply id_free_of_unique; [exact Hid|]. intros r' Hr'.
      apply (unique_violation_None _ _ _ ("matches_pkey", ["id"]) _ Hu); [solve_in|done].
    + intros r a b Hin -> -> Hea Heb.
      pose proof (unique_violation_None _ _ _ ("unique_match", ["user_id"; "liked_user_id"])
                    r Hu) as Hag.
      unfold agree in Hag. simpl in Hag. rewrite Hea, Heb in Hag.
      rewrite !bool_decide_eq_true_2 in Hag by done.
      discriminate Hag; [vm_compute; solve_in|done].
    + intros Hen. split.
      * apply (satisfied_before db "matches" ts (new_Match id user_id liked_user_id)); [done|].
        apply (fk_violation_None _ _ _ ("user_id", mkForeignKey "users" "id" None) (Hf Hen)).
        vm_compute. solve_in.
      * apply (satisfied_before db "matches" ts (new_Match id user_id liked_user_id)); [done|].
        apply (fk_violation_None _ _ _ ("liked_user_id", mkForeignKey "users" "id" None)
                 (Hf Hen)).
        vm_compute. solve_in.
  - intros (Hid & Ha & Hb & Hpair & Hfk).
    destruct (insert_Match_Ok engine db ts id user_id liked_user_id)
      as (db' & Hins & _); eauto.
    intros r' Hr'. unfold agree. simpl.
    destruct user_id as [a|], liked_user_id as [b|]; simpl; try done;
      [|by rewrite andb_false_r].
    destruct (decide (get r' "user_id" = VInt a)) as [Hea|Hne].
    + rewrite (bool_decide_eq_false_2 (VInt b = _)); [by rewrite andb_false_r|].
      intros Heq. by apply (Hpair r' a b).
    + by rewrite bool_decide_eq_false_2.
Qed.

(** X5, an instance: Alice is matched with Bob; the match of Bob with Alice
    is accepted. *)
Lemma match_accepted_iff_witness :
  ∃ db', insert enforcing (one_way enforcing) "matches"
           (new_Match None (Some 2) (Some 1)) = Ok db'.
Proof.
  apply (proj2 (match_accepted_iff enforcing (one_way enforcing)
                  (mkTableState Match
                     [ [("id", VInt 1); ("user_id", VInt 1); ("liked_user_id", VInt 2)] ] 2)
                  None (Some 2) (Some 1)
                  ltac:(do 3 apply reachable_insert; constructor)
                  ltac:(vm_compute; reflexivity))).
  split.
  { split; [int4_tac|]. intros r Hr. apply list_elem_of_singleton in Hr as ->. discriminate. }
  split; [int4_tac|]. split; [int4_tac|]. split.
  - intros r a b Hr [= <-] [= <-]. apply list_elem_of_singleton in Hr as ->. discriminate.
  - intros _. split.
    + exists (new_row User 1 bob). split; [vm_compute; solve_in|reflexivity].
    + exists alice_row. split; [vm_compute; solve_in|reflexivity].
Defined.

(** X6: when a Like row is accepted. In a reachable state, the INSERT of a
    Like is accepted exactly when its id is a free 32-bit integer, user_id
    and liked_user_id are NULL or 32-bit integers and, under enforcement,
    each one that is given names a stored user. The rows already stored in
    likes matter through their ids only. *)
Theorem like_accepted_iff (engine : Engine) db ts id user_id liked_user_id :
  reachable engine db → db !! "likes" = Some ts →
  ((∃ db', insert engine db "likes" (new_Like id user_id liked_user_id) = Ok db') ↔
   id_free ts id ∧ int4_opt user_id ∧ int4_opt liked_user_id ∧
   (fk_enforced engine = true → names_user db user_id ∧ names_user db liked_user_id)).
Proof.
  intros Hr Hts. pose proof (reachable_declared _ _ Hr) as Hd.
  pose proof (reachable_sequence _ _ _ _ Hr Hts) as Hseq.
  assert (ts_def ts = Like) as Hdef.
  { apply (declared_def db); [done|solve_in|done]. }
  split.
  - intros [db' Hins]. pose proof Hins as Hacc.
    apply (insert_Ok_iff engine db "likes" ts _ db' Hts) in Hacc as (_ & Hp & Hu & Hf).
    destruct (presentable_Like_inv _ _ _ _ Hdef Hseq Hp) as (Hid & Ha & Hb).
    rewrite Hdef, new_row_Like, row_id_eq in Hu, Hf. split; [|split; [done|split; [done|]]].
    + eapply id_free_of_unique; [exact Hid|]. intros r' Hr'.
      apply (unique_violation_None _ _ _ ("likes_pkey", ["id"]) _ Hu); [solve_in|done].
    + intros Hen. split.
      * apply (satisfied_before db "likes" ts (new_Like id user_id liked_user_id)); [done|].
        apply (fk_violation_None _ _ _ ("user_id", mkForeignKey "users" "id" None) (Hf Hen)).
        vm_compute. solve_in.
      * apply (satisfied_before db "likes" ts (new_Like id user_id liked_user_id)); [done|].
        apply (fk_violation_None _ _ _ ("liked_user_id", mkForeignKey "users" "id" None)
                 (Hf Hen)).
        vm_compute. solve_in.
  - intros (Hid & Ha & Hb & Hfk).
    destruct (insert_Like_Ok engine db ts id user_id liked_user_id)
      as (db' & Hins & _); eauto.
Qed.

(** X6, an instance: Alice likes herself. *)
Lemma like_accepted_iff_witness :
  ∃ db', insert enforcing (with_user enforcing) "likes"
           (new_Like None (Some 1) (Some 1)) = Ok db'.
Proof.
  apply (proj2 (like_accepted_iff enforcing (with_user enforcing)
                  (mkTableState Like [] 1) None (Some 1) (Some 1)
                  ltac:(apply reachable_insert; constructor)
                  ltac:(vm_compute; reflexivity))).
  split; [split; [int4_tac|by intros r Hr%not_elem_of_nil]|].
  split; [int4_tac|]. split; [int4_tac|]. intros _.
  split; exists alice_row; (split; [vm_compute; solve_in|reflexivity]).
Defined.

(** ** What the stored rows satisfy *)

Section NotNull.
Context (engine : Engine).

Lemma not_null_hold_fresh : not_null_hold fresh.
Proof.
  intros t ts c r Hts _ _ Hr.
  apply create_all_lookup_inv in Hts as [Hts|(_ & t' & _ & _ & ->)].
  - by rewrite lookup_empty in Hts.
  - by apply not_elem_of_nil in Hr.
Qed.

Lemma insert_not_null_hold db tname kw :
  not_null_hold db → not_null_hold (state_after (insert engine db tname kw)).
Proof.
  intros Hn. destruct (insert engine db tname kw) as [db'|e db'] eqn:H; simpl.
  - apply insert_Ok_inv in H as (ts & Hts & -> & _ & _ & Hnull & _).
    intros t ts' c r Hts' Hc Hnn Hr. unfold accepted in Hts'.
    destruct (decide (tname = t)) as [<-|Hne].
    + rewrite lookup_insert_eq in Hts'. injection Hts' as <-. simpl in *.
      apply elem_of_app in Hr as [Hr| ->%list_elem_of_singleton]; [by eapply Hn|].
      by eapply null_violation_None.
    + rewrite lookup_insert_ne in Hts' by done. by eapply Hn.
  - apply insert_Failed_inv in H as [->|(ts & seq' & Hts & ->)]; [done|].
    intros t ts' c r Hts' Hc Hnn Hr. destruct (decide (tname = t)) as [<-|Hne].
    + rewrite lookup_insert_eq in Hts'. injection Hts' as <-. simpl in *.
      by eapply Hn.
    + rewrite lookup_insert_ne in Hts' by done. by eapply Hn.
Qed.

Lemma reachable_not_null_hold db : reachable engine db → not_null_hold db.
Proof.
  induction 1 as [|db db' Hr IH Hs]; [apply not_null_hold_fresh|].
  destruct Hs as [tname kw|fuel tname p db'' H]; [by apply insert_not_null_hold|].
  destruct (delete_Ok_fuel _ _ _ _ _ _ H) as [n ->].
  apply delete_Ok_inv in H as (ts & Hts & -> & _);
    [|by eapply declared_no_cascade, reachable_declared].
  intros t ts' c r Hts' Hc Hnn Hr'. unfold after_delete in Hts'.
  destruct (decide (tname = t)) as [<-|Hne].
  - rewrite lookup_insert_eq in Hts'. injection Hts' as <-. simpl in *.
    apply list_elem_of_In, filter_In in Hr' as [Hr' _].
    apply list_elem_of_In in Hr'. by eapply IH.
  - rewrite lookup_insert_ne in Hts' by done. by eapply IH.
Qed.

End NotNull.

Lemma nullable_in_column t c b :
  nullable_in t c = Some b → ∃ col, col ∈ columns t ∧ col_name col = c ∧ is_nullable col = b.
Proof.
  unfold nullable_in. destruct (find _ _) as [col|] eqn:Hf; [|discriminate].
  intros [= <-]. apply find_some in Hf as [Hin Heq%String.eqb_eq].
  exists col. split; [by apply list_elem_of_In|done].
Qed.

Lemma rows_not_null (engine : Engine) db t c r :
  reachable engine db → t ∈ metadata → nullable_in t c = Some false →
  r ∈ rows_of db (tablename t) → get r c ≠ VNull.
Proof.
  intros Hr Ht Hn Hin.
  destruct (declared_table db t (reachable_declared _ _ Hr) Ht) as (ts & Hts & Hdef).
  destruct (nullable_in_column _ _ _ Hn) as (col & Hcol & <- & Hnn).
  unfold rows_of in Hin. rewrite Hts in Hin.
  apply (reachable_not_null_hold _ _ Hr (tablename t) ts col r); [done|by rewrite Hdef|done..].
Qed.

(** X7: in every state reachable by INSERT and DELETE statements, a column
    that is NOT NULL (declared nullable=False, or a primary key) holds NULL
    in no row of its table. *)
Theorem required_columns_never_null (engine : Engine) db t c r :
  reachable engine db → t ∈ metadata → nullable_in t c = Some false →
  r ∈ rows_of db (tablename t) → get r c ≠ VNull.
Proof.
  apply rows_not_null.
Qed.

(** X7, an instance: Alice's stored e-mail address is not NULL. *)
Lemma required_columns_never_null_witness : get alice_row "email" ≠ VNull.
Proof.
  apply (required_columns_never_null enforcing (with_user enforcing) User "email" alice_row).
  - apply reachable_insert; constructor.
  - solve_in.
  - reflexivity.
  - vm_compute; apply list_elem_of_here.
Defined.

(** X8: in every reachable state, every cell of every row of the six tables
    holds a value of the declared type of its column or NULL; in an Integer
    column it is NULL or a 32-bit integer. *)
Theorem cells_fit_columns (engine : Engine) db t col r :
  reachable engine db → t ∈ metadata → col ∈ columns t →
  r ∈ rows_of db (tablename t) →
  fits (col_type col) (get r (col_name col)) = true ∧
  (col_type col = Integer →
   get r (col_name col) = VNull ∨ ∃ z, get r (col_name col) = VInt z ∧ int4 z).
Proof.
  intros Hr Ht Hcol Hin.
  destruct (declared_table db t (reachable_declared _ _ Hr) Ht) as (ts & Hts & Hdef).
  unfold rows_of in Hin. rewrite Hts in Hin.
  destruct (reachable_well_typed _ _ Hr) as [Hw _].
  assert (fits (col_type col) (get r (col_name col)) = true) as Hfit.
  { apply (Hw (tablename t) ts col r); [done|by rewrite Hdef|done]. }
  split; [done|]. intros Hty. rewrite Hty in Hfit.
  destruct (fits_Integer_cell _ Hfit) as ([z|] & -> & Hz); [right; eauto|by left].
Qed.

(** X8, an instance: Alice's stored age (none given) fits its column. *)
Lemma cells_fit_columns_witness :
  fits Integer (get alice_row "age") = true ∧
  (Integer = Integer →
   get alice_row "age" = VNull ∨ ∃ z, get alice_row "age" = VInt z ∧ int4 z).
Proof.
  apply (cells_fit_columns enforcing (with_user enforcing) User
           (column "age" Integer []) alice_row).
  - apply reachable_insert; constructor.
  - solve_in.
  - vm_compute; solve_in.
  - vm_compute; apply list_elem_of_here.
Defined.

Lemma unique_on_NoDup c (rows : list row) :
  unique_on [c] rows → (∀ r, r ∈ rows → get r c ≠ VNull) →
  NoDup ((λ r, get r c) <$> rows).
Proof.
  induction rows as [|r rows IH]; [intros; constructor|].
  intros [Hr Hu] Hnn. rewrite fmap_cons. constructor.
  - intros (r' & Heq & Hin)%list_elem_of_fmap.
    specialize (Hr r' Hin). unfold agree in Hr. simpl in Hr. rewrite andb_true_r in Hr.
    assert (sql_eq (get r c) (get r' c) = true) as Ht; [|congruence].
    apply sql_eq_true. split; [apply Hnn, list_elem_of_here|done].
  - apply IH; [done|]. intros r' Hin. by apply Hnn, list_elem_of_further.
Qed.

Lemma count_of_ge_1 c (g : row) rows :
  g ∈ rows → (1 ≤ count_of c (get g c) rows)%nat.
Proof.
  intros Hin. unfold count_of.
  assert (In g (List.filter (λ r, bool_decide (get r c = get g c)) rows)) as Hf.
  { apply filter_In. split; [by apply list_elem_of_In|]. by rewrite bool_decide_eq_true_2. }
  destruct (List.filter _ rows); [done|simpl; lia].
Qed.

Lemma metadata_pkey t :
  t ∈ metadata →
  (tablename t +:+ "_pkey", ["id"]) ∈ unique_constraints t ∧
  nullable_in t "id" = Some false.
Proof.
  intros Hin. unfold metadata in Hin.
  repeat (apply elem_of_cons in Hin as [->|Hin]; [split; [vm_compute; solve_in|reflexivity]|]).
  by apply not_elem_of_nil in Hin.
Qed.

(** X9: in every reachable state, no two rows of a table share their id:
    id is the primary key of each of the six tables. *)
Theorem ids_are_keys (engine : Engine) db t :
  reachable engine db → t ∈ metadata →
  NoDup ((λ r, get r "id") <$> rows_of db (tablename t)).
Proof.
  intros Hr Ht. destruct (metadata_pkey t Ht) as [Hpk Hnn].
  destruct (declared_table db t (reachable_declared _ _ Hr) Ht) as (ts & Hts & Hdef).
  apply unique_on_NoDup.
  - unfold rows_of. rewrite Hts.
    apply (reachable_constraints_hold _ _ Hr (tablename t) ts
             (tablename t +:+ "_pkey", ["id"])); [done|by rewrite Hdef].
  - intros r Hin. by apply (rows_not_null engine db t "id" r).
Qed.

(** X9, an instance: the two matches of Alice and Bob have distinct ids. *)
Lemma ids_are_keys_witness :
  NoDup ((λ r, get r "id") <$> rows_of (both_ways enforcing) "matches").
Proof.
  apply (ids_are_keys enforcing (both_ways enforcing) Match).
  - do 4 apply reachable_insert; constructor.
  - solve_in.
Defined.

Lemma referenced_user_is_one (engine : Engine) db tname c r' :
  fk_enforced engine = true → reachable engine db →
  (tname, c) ∈ user_references → r' ∈ rows_of db tname → get r' c ≠ VNull →
  count_of "id" (get r' c) (rows_of db "users") = 1%nat.
Proof.
  intros Hen Hr Href Hin Hv. pose proof (reachable_declared _ _ Hr) as Hd.
  destruct (user_reference_inv db tname c Hd Href) as (Hne & ts' & Hts' & Hf).
  pose proof Hin as Hin'. unfold rows_of in Hin'. rewrite Hts' in Hin'.
  pose proof (reachable_references_hold _ Hen _ Hr tname ts' _ r' Hts' Hf Hin') as Hsat.
  simpl in Hsat. unfold fk_satisfied in Hsat.
  rewrite bool_decide_eq_false_2 in Hsat by done. simpl in Hsat.
  apply existsb_exists in Hsat as (g & Hg & [_ Heq]%sql_eq_true).
  apply list_elem_of_In in Hg.
  pose proof (count_of_ge_1 "id" g _ Hg) as Hge. rewrite <- Heq in Hge.
  destruct (declared_table db User Hd) as (ts & Hts & Hdef); [solve_in|].
  assert (count_of "id" (get r' c) (rows_of db "users") ≤ 1)%nat; [|lia].
  unfold rows_of. simpl in Hts. rewrite Hts. apply unique_on_count; [done|].
  apply (reachable_constraints_hold _ _ Hr "users" ts ("users_pkey", ["id"])); [done|].
  rewrite Hdef. vm_compute. solve_in.
Qed.

(** X10: with foreign keys enforced, in every reachable state a reference to
    users.id that is not NULL names exactly one stored user; a row of
    profiles or admins always does, its user_id being NOT NULL. *)
Theorem reference_names_one_user (engine : Engine) db tname c r' :
  fk_enforced engine = true → reachable engine db →
  (tname, c) ∈ user_references → r' ∈ rows_of db tname →
  (get r' c ≠ VNull → count_of "id" (get r' c) (rows_of db "users") = 1%nat) ∧
  (tname = "profiles" ∨ tname = "admins" →
   count_of "id" (get r' c) (rows_of db "users") = 1%nat).
Proof.
  intros Hen Hr Href Hin.
  split; [by apply (referenced_user_is_one engine db tname c r')|]. intros Htab.
  apply (referenced_user_is_one engine db tname c r'); try done.
  vm_compute in Href.
  repeat (apply elem_of_cons in Href as [Href|Href]);
    [injection Href as -> -> ..|by apply not_elem_of_nil in Href];
    try (by destruct Htab as [?|?]).
  - by apply (rows_not_null engine db Profile "user_id" r' Hr); [solve_in|..].
  - by apply (rows_not_null engine db Admin "user_id" r' Hr); [solve_in|..].
Qed.

(** X10, an instance: Alice's profile names exactly one user. *)
Lemma reference_names_one_user_witness :
  count_of "id" (get profile_row "user_id") (rows_of (with_profile enforcing) "users")
  = 1%nat.
Proof.
  apply (reference_names_one_user enforcing (with_profile enforcing)
           "profiles" "user_id" profile_row).
  - reflexivity.
  - do 2 apply reachable_insert; constructor.
  - vm_compute; solve_in.
  - vm_compute; apply list_elem_of_here.
  - by left.
Defined.

Lemma serial_table_id t :
  t ∈ serial_tables →
  t ∈ metadata ∧ ∃ c, c ∈ columns t ∧ col_name c = "id" ∧ is_serial t c = true.
Proof.
  intros [Hauto Hin]%list_elem_of_filter. split; [done|].
  unfold metadata in Hin.
  repeat (apply elem_of_cons in Hin as [->|Hin];
          [first [discriminate Hauto
                 |eexists; split; [apply list_elem_of_here|split; reflexivity]]|]).
  by apply not_elem_of_nil in Hin.
Qed.

(** X11: the tables whose id the database generates are profiles, admins,
    likes, matches and messages (User.id says autoincrement=False). In
    every reachable state, an accepted INSERT into one of them that gives
    no id stores the next value of the table's sequence as the id, a
    positive 32-bit integer, appends the row and advances the sequence by
    one. *)
Theorem generated_ids_follow_sequence (engine : Engine) db t ts kw db' :
  reachable engine db → t ∈ serial_tables → db !! tablename t = Some ts →
  assigned kw "id" = None → insert engine db (tablename t) kw = Ok db' →
  serial_tables = [Profile; Admin; Like; Match; Message] ∧
  1 ≤ ts_seq ts ∧ int4 (ts_seq ts) ∧
  ∃ r, db' !! tablename t = Some (mkTableState t (ts_rows ts ++ [r]) (ts_seq ts + 1)) ∧
       get r "id" = VInt (ts_seq ts).
Proof.
  intros Hr Ht Hts Hid Hins. split; [reflexivity|].
  pose proof (reachable_declared _ _ Hr) as Hd.
  pose proof (reachable_sequence _ _ _ _ Hr Hts) as Hpos.
  destruct (serial_table_id t Ht) as (Hmeta & c & Hc & Hname & Hser).
  pose proof (declared_def db t ts Hd Hmeta Hts) as Hdef.
  assert (uses_sequence t kw = true) as Huses.
  { apply (uses_sequence_serial t kw c); [done..|by rewrite Hname]. }
  pose proof (insert_Ok_sequence _ _ _ _ _ _ Hins Hts) as Hseq.
  rewrite Hdef, Huses in Hseq. simpl in Hseq.
  split; [done|]. split; [by apply sequence_int4|].
  apply (insert_Ok_iff engine db (tablename t) ts kw db' Hts) in Hins as (-> & _).
  exists (new_row t (ts_seq ts) kw). split.
  - unfold accepted. by rewrite lookup_insert_eq, Hdef, Huses.
  - pose proof (metadata_ok t Hmeta) as [Hnd _]%andb_true_iff.
    apply bool_decide_eq_true in Hnd.
    rewrite <- Hname, get_new_row by done.
    unfold new_cell. by rewrite Hname, Hid, Hser.
Qed.

(** X11, an instance: Alice's second profile gets id 2. *)
Lemma generated_ids_follow_sequence_witness :
  serial_tables = [Profile; Admin; Like; Match; Message] ∧
  1 ≤ 2 ∧ int4 2 ∧
  ∃ r, with_two_profiles enforcing !! "profiles"
         = Some (mkTableState Profile ([profile_row] ++ [r]) (2 + 1)) ∧
       get r "id" = VInt 2.
Proof.
  apply (generated_ids_follow_sequence enforcing (with_profile enforcing) Profile
           (mkTableState Profile [profile_row] 2)
           (new_Profile None (Some 1) None None None) (with_two_profiles enforcing)).
  - do 2 apply reachable_insert; constructor.
  - vm_compute; solve_in.
  - vm_compute; reflexivity.
  - reflexivity.
  - vm_compute; reflexivity.
Defined.

(** ** Deletes *)

(** Every foreign key of the schema points at users.id and declares no
    [ondelete]. *)
Lemma metadata_foreign_key t f :
  t ∈ metadata → f ∈ foreign_keys t →
  snd f = mkForeignKey "users" "id" None ∧ t ≠ User ∧ (tablename t, fst f) ∈ user_references.
Proof.
  intros Hin. unfold metadata in Hin.
  repeat (apply elem_of_cons in Hin as [->|Hin];
          [vm_compute; intros Hf;
           repeat (apply elem_of_cons in Hf as [->|Hf];
                   [split; [reflexivity|split; [discriminate|solve_in]]|]);
           by apply not_elem_of_nil in Hf|]).
  by apply not_elem_of_nil in Hin.
Qed.

Lemma referencing_inv db tname t' c fk :
  declared db → (t', c, fk) ∈ referencing db tname →
  tname = "users" ∧ fk = mkForeignKey "users" "id" None ∧ t' ≠ "users" ∧
  (t', c) ∈ user_references.
Proof.
  intros Hd (ts' & Hts' & Hf & Htab)%elem_of_referencing.
  destruct (declared_lookup _ _ _ Hd Hts') as [Hmeta Hname].
  destruct (metadata_foreign_key _ _ Hmeta Hf) as (Hfk & Hne & Href). simpl in *.
  subst fk. simpl in Htab. rewrite Hname in Href. repeat split; try done.
  intros ->. rewrite <- Hname in Hts'.
  destruct (declared_table db User Hd) as (ts & Hts & Hdef); [solve_in|].
  simpl in Hts. apply Hne.
  assert (tablename (ts_def ts') = "users") as Hn by done.
  clear -Hmeta Hn. unfold metadata in Hmeta.
  repeat (apply elem_of_cons in Hmeta as [Hm|Hmeta];
          [rewrite Hm in Hn |- *; first [reflexivity|discriminate Hn]|]).
  by apply not_elem_of_nil in Hmeta.
Qed.

(** X12: no foreign key of the schema points at a table other than users,
    so a DELETE on profiles, admins, likes, matches or messages is always
    accepted, whatever rows it selects: it removes the selected rows and
    changes no other table. *)
Theorem dependent_rows_delete_freely (engine : Engine) db t ts p n :
  declared db → t ∈ metadata → t ≠ User → db !! tablename t = Some ts →
  ∃ db', delete_from engine (S n) db (tablename t) p = Ok db' ∧
         rows_of db' (tablename t) = List.filter (λ r, negb (p r)) (ts_rows ts) ∧
         ∀ t', t' ≠ tablename t → db' !! t' = db !! t'.
Proof.
  intros Hd Ht Hne Hts.
  rewrite delete_from_no_cascade, Hts by by apply declared_no_cascade.
  assert (first_dangling db (tablename t) ts p = None) as ->.
  { unfold first_dangling. destruct (find _ _) as [[[t' c] fk]|] eqn:Hf; [|done].
    apply find_some in Hf as [Hin _]. apply list_elem_of_In in Hin.
    destruct (referencing_inv _ _ _ _ _ Hd Hin) as (Hname & _).
    destruct Hne. clear -Ht Hname. unfold metadata in Ht.
    repeat (apply elem_of_cons in Ht as [->|Ht]; [first [reflexivity|discriminate Hname]|]).
    by apply not_elem_of_nil in Ht. }
  exists (after_delete db (tablename t) ts p).
  split; [by destruct (fk_enforced engine)|]. split.
  - unfold rows_of, after_delete. by rewrite lookup_insert_eq.
  - intros t' Hne'. unfold after_delete. by rewrite lookup_insert_ne.
Qed.

(** X12, an instance: deleting every profile is accepted although Alice
    is still there. *)
Lemma dependent_rows_delete_freely_witness :
  ∃ db', delete_from enforcing 1 (with_profile enforcing) "profiles" (λ _, true) = Ok db' ∧
         rows_of db' "profiles" = [] ∧
         ∀ t', t' ≠ "profiles" → db' !! t' = with_profile enforcing !! t'.
Proof.
  apply (dependent_rows_delete_freely enforcing (with_profile enforcing) Profile
           (mkTableState Profile [profile_row] 2) (λ _, true) 0%nat).
  - vm_compute; reflexivity.
  - solve_in.
  - discriminate.
  - vm_compute; reflexivity.
Defined.

(** X13: with foreign keys enforced, deleting the user with id [u] is
    accepted exactly when it is not the case that the user is stored and a
    row of profiles, admins, likes, matches or messages references it
    through one of the eight foreign keys. *)
Theorem user_delete_accepted_iff (engine : Engine) db u :
  fk_enforced engine = true → declared db →
  ((∃ db', delete_user engine db u = Ok db') ↔
   ¬ ((∃ g, g ∈ rows_of db "users" ∧ get g "id" = VInt u) ∧
      (∃ tname c r', (tname, c) ∈ user_references ∧ r' ∈ rows_of db tname ∧
                     get r' c = VInt u))).
Proof.
  intros Hen Hd.
  destruct (declared_table db User Hd) as (ts & Hts & Hdef); [solve_in|]. simpl in Hts.
  unfold delete_user.
  rewrite delete_from_no_cascade, Hts, Hen by by apply declared_no_cascade.
  split.
  - intros [db' Hdel] [(g & Hg & Hgid) (tname & c & r' & Href & Hr' & Hc)].
    destruct (user_reference_inv db tname c Hd Href) as (Hne & ts' & Hts' & Hf).
    unfold rows_of in Hr', Hg. rewrite Hts' in Hr'. rewrite Hts in Hg.
    destruct (first_dangling_Some db "users" ts (λ r, sql_eq (VInt u) (get r "id"))
                tname ts' c (mkForeignKey "users" "id" None) r') as [ref Hsome]; try done.
    + unfold dangling. simpl. rewrite Hc. apply andb_true_iff. split.
      * apply existsb_exists. exists g. split.
        -- apply filter_In. split; [by apply list_elem_of_In|].
           rewrite Hgid. simpl. by apply bool_decide_eq_true_2.
        -- rewrite Hgid. simpl. by apply bool_decide_eq_true_2.
      * apply negb_true_iff, not_true_is_false.
        intros (k & Hk & Heq)%existsb_exists.
        apply filter_In in Hk as [_ Hk]. simpl in Hk, Heq.
        apply negb_true_iff in Hk. congruence.
    + by rewrite Hsome in Hdel.
  - intros Hnot.
    destruct (first_dangling _ _ _ _) as [[[t' c] fk]|] eqn:Hfd; [|by eexists].
    destruct Hnot. unfold first_dangling in Hfd.
    apply find_some in Hfd as [Hin Hex]. apply list_elem_of_In in Hin. simpl in Hex.
    destruct (referencing_inv _ _ _ _ _ Hd Hin) as (_ & -> & Hne & Href).
    apply existsb_exists in Hex as (r' & Hr' & Hdang).
    unfold rows_of, after_delete in Hr'. rewrite lookup_insert_ne in Hr' by done.
    fold (rows_of db t') in Hr'. apply list_elem_of_In in Hr'.
    unfold dangling in Hdang. apply andb_true_iff in Hdang as [Hgone _].
    apply existsb_exists in Hgone as (g & Hg & Heq). simpl in Heq.
    apply filter_In in Hg as [Hg Hp]. apply bool_decide_eq_true in Hp.
    apply sql_eq_true in Heq as [_ Heq]. split.
    + exists g. split; [|done]. unfold rows_of. rewrite Hts. by apply list_elem_of_In.
    + exists t', c, r'. split; [done|]. split; [done|]. congruence.
Qed.

(** X13, an instance: Alice, whom nothing references, can be deleted. *)
Lemma user_delete_accepted_iff_witness :
  ∃ db', delete_user enforcing (with_user enforcing) 1 = Ok db'.
Proof.
  apply (proj2 (user_delete_accepted_iff enforcing (with_user enforcing) 1
                  eq_refl ltac:(vm_compute; reflexivity))).
  intros [_ (tname & c & r' & Href & Hr' & _)].
  vm_compute in Href.
  repeat (apply elem_of_cons in Href as [[= -> ->]|Href];
          [by vm_compute in Hr'; apply not_elem_of_nil in Hr'|]).
  by apply not_elem_of_nil in Href.
Defined.

(** ** Deleting a user through the session *)

Lemma fmap_unselected (p : row → bool) (f : row → row) (rows : list row) :
  existsb p rows = false → (λ r, if p r then f r else r) <$> rows = rows.
Proof.
  induction rows as [|r rows IH]; [done|]. simpl.
  intros [Hr Hrows]%orb_false_iff. rewrite Hr. f_equal. by apply IH.
Qed.

(** On a NOT NULL column the statement is rejected as soon as it selects a
    row, and has nothing to do otherwise. *)
Lemma set_null_not_null db tname ts c p :
  db !! tname = Some ts → nullable_in (ts_def ts) c = Some false →
  set_null db tname c p =
  if existsb p (ts_rows ts) then Failed (NotNullViolation tname c) db else Ok db.
Proof.
  intros Hts Hn. unfold set_null. rewrite Hts, Hn.
  destruct (existsb p (ts_rows ts)) eqn:Hex; [done|]. simpl.
  rewrite fmap_unselected by done. f_equal.
  rewrite <- (insert_id db tname ts) at 2 by done. by destruct ts.
Qed.

Lemma existsb_references (v : value) c (rows : list row) :
  existsb (λ q, sql_eq v (get q c)) rows = true ↔
  v ≠ VNull ∧ ∃ q, q ∈ rows ∧ get q c = v.
Proof.
  rewrite existsb_exists. split.
  - intros (q & Hq & [Hv Heq]%sql_eq_true). split; [done|].
    exists q. split; [by apply list_elem_of_In|done].
  - intros (Hv & q & Hq & Heq). exists q. split; [by apply list_elem_of_In|].
    by apply sql_eq_true.
Qed.

(** What [session.delete] comes to on the declared schema: a NOT NULL
    violation when the user has an admin row or a profile, and the DELETE
    statement otherwise. *)
Lemma session_delete_eq (engine : Engine) db g :
  declared db →
  session_delete engine db g =
  if existsb (λ q, sql_eq (get g "id") (get q "user_id")) (rows_of db "admins")
  then Failed (NotNullViolation "admins" "user_id") db
  else if existsb (λ q, sql_eq (get g "id") (get q "user_id")) (rows_of db "profiles")
  then Failed (NotNullViolation "profiles" "user_id") db
  else match delete_from engine 1 db "users" (λ r, sql_eq (get g "id") (get r "id")) with
       | Ok db' => Ok db'
       | Failed e _ => Failed e db
       end.
Proof.
  intros Hd.
  destruct (declared_table db Admin Hd) as (ta & Hta & Hdefa); [solve_in|].
  destruct (declared_table db Profile Hd) as (tp & Htp & Hdefp); [solve_in|].
  simpl in Hta, Htp. unfold session_delete, rows_of. rewrite Hta, Htp.
  change (relationships User)
    with [mkRelationship "admin" "Admin" (Some "user") [];
          mkRelationship "profile" "Profile" (Some "user") []].
  cbn [foldl]. unfold detach at 2.
  change (configure User (mkRelationship "admin" "Admin" (Some "user") []))
    with (Some (Admin, mkJoin ONETOMANY "id" "user_id")).
  cbn [j_direction j_local j_remote tablename Admin].
  rewrite (set_null_not_null db "admins" ta) by (by rewrite ?Hdefa).
  destruct (existsb _ (ts_rows ta)); [done|]. unfold detach.
  change (configure User (mkRelationship "profile" "Profile" (Some "user") []))
    with (Some (Profile, mkJoin ONETOMANY "id" "user_id")).
  cbn [j_direction j_local j_remote tablename Profile].
  rewrite (set_null_not_null db "profiles" tp) by (by rewrite ?Hdefp).
  by destruct (existsb _ (ts_rows tp)).
Qed.

(** A DELETE on users that is rejected hands back the database it was
    given. *)
Lemma delete_user_settled (engine : Engine) db u :
  declared db →
  match delete_from engine 1 db "users" (λ r, sql_eq (VInt u) (get r "id")) with
  | Ok db' => Ok db'
  | Failed e _ => Failed e db
  end = delete_user engine db u.
Proof.
  intros Hd. unfold delete_user.
  rewrite delete_from_no_cascade by by apply declared_no_cascade.
  destruct (db !! "users"); [|done].
  destruct (fk_enforced engine); [|done]. by destruct (first_dangling _ _ _ _).
Qed.

(** With foreign keys enforced, the DELETE of a stored user that some row
    references is rejected. *)
Lemma referenced_user_kept (engine : Engine) db u g tname c r' :
  fk_enforced engine = true → declared db →
  g ∈ rows_of db "users" → get g "id" = VInt u →
  (tname, c) ∈ user_references → r' ∈ rows_of db tname → get r' c = VInt u →
  ∃ t' c', delete_user engine db u = Failed (ForeignKeyViolation t' c') db.
Proof.
  intros Hon Hd Hg Hgid Href Hr' Hc.
  pose proof (declared_no_cascade _ Hd) as Hnc.
  destruct (declared_table db User Hd) as (ts & Hts & Hdef); [solve_in|].
  simpl in Hts.
  destruct (user_reference_inv db tname c Hd Href) as (Hne & ts' & Hts' & Hf).
  unfold delete_user. rewrite delete_from_no_cascade, Hts, Hon by done.
  unfold rows_of in Hr', Hg. rewrite Hts' in Hr'. rewrite Hts in Hg.
  destruct (first_dangling_Some db "users" ts (λ r, sql_eq (VInt u) (get r "id"))
              tname ts' c (mkForeignKey "users" "id" None) r') as [ref ->]; try done.
  - unfold dangling. simpl. rewrite Hc. apply andb_true_iff. split.
    + apply existsb_exists. exists g. split.
      * apply filter_In. split; [by apply list_elem_of_In|].
        rewrite Hgid. simpl. by apply bool_decide_eq_true_2.
      * rewrite Hgid. simpl. by apply bool_decide_eq_true_2.
    + apply negb_true_iff, not_true_is_false.
      intros (k & Hk & Heq)%existsb_exists.
      apply filter_In in Hk as [_ Hk]. simpl in Hk, Heq.
      apply negb_true_iff in Hk. congruence.
  - eauto.
Qed.

(** X17: deleting a stored user through the session never detaches a row.
    User.admin and User.profile give no cascade, so [session.delete] first
    sets the user_id of the user's admin row and profiles to NULL, which
    both columns forbid: in every reachable state, the delete of a user who
    has a profile or an admin row fails with a NOT NULL violation on
    user_id and changes nothing, and the delete of any other user is the
    DELETE statement on users. Whatever the outcome, no row of another
    table is changed. When the delete is accepted, the user is gone; a
    row that referenced the user is then a row of likes, matches or
    messages on an engine that does not enforce foreign keys, and it is
    still there. *)
Theorem session_delete_detaches_nothing (engine : Engine) db g u :
  reachable engine db → g ∈ rows_of db "users" → get g "id" = VInt u →
  ((∃ q, (q ∈ rows_of db "profiles" ∨ q ∈ rows_of db "admins") ∧
         get q "user_id" = VInt u) →
   ∃ t, (t = "profiles" ∨ t = "admins") ∧
        session_delete engine db g = Failed (NotNullViolation t "user_id") db) ∧
  (¬ (∃ q, (q ∈ rows_of db "profiles" ∨ q ∈ rows_of db "admins") ∧
           get q "user_id" = VInt u) →
   session_delete engine db g = delete_user engine db u) ∧
  (∀ t, t ≠ "users" → state_after (session_delete engine db g) !! t = db !! t) ∧
  (∀ db', session_delete engine db g = Ok db' →
          (∀ r, r ∈ rows_of db' "users" → get r "id" ≠ VInt u) ∧
          ∀ tname c r',
            (tname, c) ∈ user_references → r' ∈ rows_of db tname → get r' c = VInt u →
            (tname = "likes" ∨ tname = "matches" ∨ tname = "messages") ∧
            fk_enforced engine = false ∧ r' ∈ rows_of db' tname).
Proof.
  intros Hr Hg Hid. pose proof (reachable_declared _ _ Hr) as Hd.
  pose proof (session_delete_eq engine db g Hd) as Heq. rewrite Hid in Heq.
  rewrite (delete_user_settled engine db u Hd) in Heq.
  assert (∀ rows : list row,
            existsb (λ q, sql_eq (VInt u) (get q "user_id")) rows = true ↔
            ∃ q, q ∈ rows ∧ get q "user_id" = VInt u) as Hex.
  { intros rows. rewrite existsb_references.
    split; [by intros [_ H]|intros H; by split]. }
  assert (∀ t, t ≠ "users" → state_after (delete_user engine db u) !! t = db !! t)
    as Hframe.
  { intros t Hne. unfold delete_user.
    rewrite delete_from_no_cascade by by apply declared_no_cascade.
    destruct (db !! "users") as [ts|]; [|done].
    destruct (fk_enforced engine); [destruct (first_dangling _ _ _ _)|]; simpl; try done.
    all: unfold after_delete; by rewrite lookup_insert_ne. }
  destruct (existsb _ (rows_of db "admins")) eqn:Ha;
    [|destruct (existsb _ (rows_of db "profiles")) eqn:Hp].
  - apply Hex in Ha as (q & Hq & Hqu).
    split; [intros _; exists "admins"; by split; [right|]|].
    split; [intros []; eauto|]. rewrite Heq. split; [done|]. discriminate.
  - apply Hex in Hp as (q & Hq & Hqu).
    split; [intros _; exists "profiles"; by split; [left|]|].
    split; [intros []; eauto|]. rewrite Heq. split; [done|]. discriminate.
  - assert (¬ ∃ q, (q ∈ rows_of db "profiles" ∨ q ∈ rows_of db "admins") ∧
                   get q "user_id" = VInt u) as Hnone.
    { intros (q & [Hq|Hq] & Hqu).
      - assert (existsb (λ q, sql_eq (VInt u) (get q "user_id")) (rows_of db "profiles")
                = true) by (apply Hex; eauto). congruence.
      - assert (existsb (λ q, sql_eq (VInt u) (get q "user_id")) (rows_of db "admins")
                = true) by (apply Hex; eauto). congruence. }
    split; [done|]. split; [done|]. rewrite Heq. split; [done|].
    intros db' Hdel. pose proof Hdel as Hinv. unfold delete_user in Hinv.
    apply delete_Ok_inv in Hinv as (ts & Hts & -> & _); [|by apply declared_no_cascade].
    split.
    + intros r Hin. unfold rows_of, after_delete in Hin. rewrite lookup_insert_eq in Hin.
      simpl in Hin. apply list_elem_of_In, filter_In in Hin as [_ Hin].
      apply negb_true_iff in Hin. intros Hru. rewrite Hru in Hin. simpl in Hin.
      by rewrite bool_decide_eq_true_2 in Hin.
    + intros tname c r' Href Hr' Hc.
      destruct (user_reference_inv db tname c Hd Href) as (Hne & _).
      split; [|split].
      * vm_compute in Href.
        repeat (apply elem_of_cons in Href as [[= -> ->]|Href];
                [first [tauto|destruct Hnone; exists r'; tauto]|]).
        by apply not_elem_of_nil in Href.
      * destruct (fk_enforced engine) eqn:Hon; [|done].
        destruct (referenced_user_kept engine db u g tname c r') as (t' & c' & Hrej);
          try done.
        congruence.
      * unfold rows_of, after_delete. by rewrite lookup_insert_ne.
Qed.

(** X17, an instance: Alice has a profile; deleting her through the session
    fails on profiles.user_id or admins.user_id. Alice has only liked
    herself, without enforcement; deleting her is accepted and the like
    stays. *)
Lemma session_delete_detaches_nothing_witness :
  (∃ t, (t = "profiles" ∨ t = "admins") ∧
        session_delete enforcing (with_profile enforcing) alice_row
        = Failed (NotNullViolation t "user_id") (with_profile enforcing)) ∧
  (∃ db', session_delete permissive self_liked alice_row = Ok db' ∧
          rows_of db' "users" = [] ∧
          [("id", VInt 1); ("user_id", VInt 1); ("liked_user_id", VInt 1)]
            ∈ rows_of db' "likes").
Proof.
  split.
  - destruct (session_delete_detaches_nothing enforcing (with_profile enforcing)
                alice_row 1) as (Hfail & _).
    + do 2 apply reachable_insert; constructor.
    + vm_compute; apply list_elem_of_here.
    + reflexivity.
    + apply Hfail. exists profile_row.
      split; [left; vm_compute; apply list_elem_of_here|reflexivity].
  - destruct (session_delete_detaches_nothing permissive self_liked alice_row 1)
      as (_ & _ & _ & Hok).
    + do 2 apply reachable_insert; constructor.
    + vm_compute; apply list_elem_of_here.
    + reflexivity.
    + exists (state_after (session_delete permissive self_liked alice_row)).
      assert (session_delete permissive self_liked alice_row
              = Ok (state_after (session_delete permissive self_liked alice_row))) as Hdel.
      { vm_compute; reflexivity. }
      destruct (Hok _ Hdel) as [_ Hrefs].
      split; [exact Hdel|]. split; [vm_compute; reflexivity|].
      apply (Hrefs "likes" "user_id"); [vm_compute; solve_in| |reflexivity].
      vm_compute; apply list_elem_of_here.
Defined.

(** ** The relationships between the models *)

Lemma filter_sql_eq_length c v (rows : list row) :
  length (List.filter (λ q, sql_eq v (get q c)) rows) =
  if decide (v = VNull) then 0%nat else count_of c v rows.
Proof.
  unfold count_of. destruct (decide (v = VNull)) as [->|Hv].
  - simpl. by induction rows.
  - f_equal. apply List.filter_ext. intros q.
    destruct (sql_eq v (get q c)) eqn:Heq.
    + apply sql_eq_true in Heq as [_ Heq]. by rewrite bool_decide_eq_true_2.
    + rewrite bool_decide_eq_false_2; [done|]. intros Hq.
      assert (sql_eq v (get q c) = true); [|congruence]. by apply sql_eq_true.
Qed.

(** The relationships of the schema that have a back reference. *)
Lemma back_populates_cases src rel attr :
  src ∈ metadata → rel ∈ relationships src → rel_back_populates rel = Some attr →
  (src = User ∧ rel = mkRelationship "admin" "Admin" (Some "user") []) ∨
  (src = User ∧ rel = mkRelationship "profile" "Profile" (Some "user") []) ∨
  (src = Profile ∧ rel = mkRelationship "user" "User" (Some "profile") []) ∨
  (src = Admin ∧ rel = mkRelationship "user" "User" (Some "admin") []).
Proof.
  intros Hsrc Hrel Hback. unfold metadata in Hsrc.
  repeat (apply elem_of_cons in Hsrc as [->|Hsrc]); [..|by apply not_elem_of_nil in Hsrc];
    simpl in Hrel;
    repeat (apply elem_of_cons in Hrel as [->|Hrel]);
    try (by apply not_elem_of_nil in Hrel); try discriminate Hback; tauto.
Qed.

(** X14: every relationship declared with back_populates can be configured,
    the class it targets declares the attribute named there, that attribute
    names this one back and joins the two tables in the opposite direction
    over the same pair of columns; a row [q] is loaded under the attribute of
    [r] exactly when [r] is loaded under the reciprocal attribute of [q]. *)
Theorem back_populates_reciprocal db src rel attr r q :
  src ∈ metadata → rel ∈ relationships src → rel_back_populates rel = Some attr →
  ∃ tgt j rel' j',
    configure src rel = Some (tgt, j) ∧
    relationship_named tgt attr = Some rel' ∧
    rel_back_populates rel' = Some (rel_attr rel) ∧
    configure tgt rel' = Some (src, j') ∧
    j_direction j ≠ j_direction j' ∧
    j_local j = j_remote j' ∧ j_remote j = j_local j' ∧
    (r ∈ rows_of db (tablename src) → q ∈ rows_of db (tablename tgt) →
     q ∈ load db src rel r ↔ r ∈ load db tgt rel' q).
Proof.
  intros Hsrc Hrel Hback.
  destruct (back_populates_cases _ _ _ Hsrc Hrel Hback)
    as [[-> ->]|[[-> ->]|[[-> ->]|[-> ->]]]]; injection Hback as <-.
  - exists Admin, (mkJoin ONETOMANY "id" "user_id"),
      (mkRelationship "user" "User" (Some "admin") []), (mkJoin MANYTOONE "user_id" "id").
    repeat (split; [reflexivity || discriminate|]). intros Hr Hq.
    unfold load. simpl. rewrite !list_elem_of_In, !filter_In, <- !list_elem_of_In.
    rewrite (sql_eq_sym (get r "id")). tauto.
  - exists Profile, (mkJoin ONETOMANY "id" "user_id"),
      (mkRelationship "user" "User" (Some "profile") []), (mkJoin MANYTOONE "user_id" "id").
    repeat (split; [reflexivity || discriminate|]). intros Hr Hq.
    unfold load. simpl. rewrite !list_elem_of_In, !filter_In, <- !list_elem_of_In.
    rewrite (sql_eq_sym (get r "id")). tauto.
  - exists User, (mkJoin MANYTOONE "user_id" "id"),
      (mkRelationship "profile" "Profile" (Some "user") []), (mkJoin ONETOMANY "id" "user_id").
    repeat (split; [reflexivity || discriminate|]). intros Hr Hq.
    unfold load. simpl. rewrite !list_elem_of_In, !filter_In, <- !list_elem_of_In.
    rewrite (sql_eq_sym (get r "user_id")). tauto.
  - exists User, (mkJoin MANYTOONE "user_id" "id"),
      (mkRelationship "admin" "Admin" (Some "user") []), (mkJoin ONETOMANY "id" "user_id").
    repeat (split; [reflexivity || discriminate|]). intros Hr Hq.
    unfold load. simpl. rewrite !list_elem_of_In, !filter_In, <- !list_elem_of_In.
    rewrite (sql_eq_sym (get r "user_id")). tauto.
Qed.

(** X14, an instance: Alice's profile is in User.profile of Alice exactly
    when Alice is in Profile.user of the profile. *)
Lemma back_populates_reciprocal_witness :
  ∃ tgt j rel' j',
    configure User (mkRelationship "profile" "Profile" (Some "user") []) = Some (tgt, j) ∧
    relationship_named tgt "user" = Some rel' ∧
    rel_back_populates rel' = Some "profile" ∧
    configure tgt rel' = Some (User, j') ∧
    j_direction j ≠ j_direction j' ∧
    j_local j = j_remote j' ∧ j_remote j = j_local j' ∧
    (alice_row ∈ rows_of (with_profile enforcing) "users" →
     profile_row ∈ rows_of (with_profile enforcing) (tablename tgt) →
     profile_row ∈ load (with_profile enforcing) User
                     (mkRelationship "profile" "Profile" (Some "user") []) alice_row
     ↔ alice_row ∈ load (with_profile enforcing) tgt rel' profile_row).
Proof.
  apply (back_populates_reciprocal (with_profile enforcing) User
           (mkRelationship "profile" "Profile" (Some "user") []) "user"
           alice_row profile_row).
  - solve_in.
  - vm_compute; solve_in.
  - reflexivity.
Defined.

(** The many-to-one relationships of the schema. *)
Lemma many_to_one_cases src rel tgt j :
  src ∈ metadata → rel ∈ relationships src → configure src rel = Some (tgt, j) →
  j_direction j = MANYTOONE →
  tgt = User ∧ j_remote j = "id" ∧ (tablename src, j_local j) ∈ user_references.
Proof.
  intros Hsrc Hrel Hconf Hdir. unfold metadata in Hsrc.
  repeat (apply elem_of_cons in Hsrc as [->|Hsrc]); [..|by apply not_elem_of_nil in Hsrc];
    simpl in Hrel;
    repeat (apply elem_of_cons in Hrel as [->|Hrel]);
    try (by apply not_elem_of_nil in Hrel);
    vm_compute in Hconf; injection Hconf as <- <-; try discriminate Hdir.
  all: split; [reflexivity|split; [reflexivity|vm_compute; solve_in]].
Qed.

(** X15: every relationship of the schema that is configured many-to-one
    (such as Profile.user) targets User. In every reachable state such an attribute loads at most
    one row, none when the reference is NULL, and exactly one when foreign
    keys are enforced and the reference is not NULL. *)
Theorem many_to_one_loads_one (engine : Engine) db src rel tgt j r :
  reachable engine db → src ∈ metadata → rel ∈ relationships src →
  configure src rel = Some (tgt, j) → j_direction j = MANYTOONE →
  r ∈ rows_of db (tablename src) →
  tgt = User ∧
  (length (load db src rel r) ≤ 1)%nat ∧
  (get r (j_local j) = VNull → load db src rel r = []) ∧
  (fk_enforced engine = true → get r (j_local j) ≠ VNull →
   length (load db src rel r) = 1%nat).
Proof.
  intros Hr Hsrc Hrel Hconf Hdir Hin.
  destruct (many_to_one_cases _ _ _ _ Hsrc Hrel Hconf Hdir) as (-> & Hrem & Href).
  pose proof (reachable_declared _ _ Hr) as Hd.
  split; [done|]. unfold load. rewrite Hconf, Hrem. simpl.
  split; [|split].
  - rewrite filter_sql_eq_length. case_decide; [lia|].
    destruct (declared_table db User Hd) as (ts & Hts & Hdef); [solve_in|].
    unfold rows_of. simpl in Hts. rewrite Hts. apply unique_on_count; [done|].
    apply (reachable_constraints_hold _ _ Hr "users" ts ("users_pkey", ["id"])); [done|].
    rewrite Hdef. vm_compute. solve_in.
  - intros ->. simpl. by induction (rows_of db "users").
  - intros Hen Hv. rewrite filter_sql_eq_length, decide_False by done.
    by apply (referenced_user_is_one engine db (tablename src)).
Qed.

(** X15, an instance: Profile.user of Alice's profile loads one row. *)
Lemma many_to_one_loads_one_witness :
  length (load (with_profile enforcing) Profile
            (mkRelationship "user" "User" (Some "profile") []) profile_row) = 1%nat.
Proof.
  destruct (many_to_one_loads_one enforcing (with_profile enforcing) Profile
              (mkRelationship "user" "User" (Some "profile") []) User
              (mkJoin MANYTOONE "user_id" "id") profile_row) as (_ & _ & _ & Hone).
  - do 2 apply reachable_insert; constructor.
  - solve_in.
  - vm_compute; solve_in.
  - vm_compute; reflexivity.
  - reflexivity.
  - vm_compute; apply list_elem_of_here.
  - by apply Hone.
Defined.

(** X16: User.admin and User.profile are both one-to-many, hence
    collections. In every reachable state User.admin holds at most one row
    (admins.user_id is unique), while User.profile is not bounded that way:
    a reachable state gives a user two profiles. *)
Theorem user_collections (engine : Engine) db u admin_rel profile_rel :
  reachable engine db → u ∈ rows_of db "users" →
  relationship_named User "admin" = Some admin_rel →
  relationship_named User "profile" = Some profile_rel →
  (j_direction ∘ snd <$> configure User admin_rel) = Some ONETOMANY ∧
  (j_direction ∘ snd <$> configure User profile_rel) = Some ONETOMANY ∧
  (length (load db User admin_rel u) ≤ 1)%nat ∧
  (∃ db' u', reachable engine db' ∧ u' ∈ rows_of db' "users" ∧
             length (load db' User profile_rel u') = 2%nat).
Proof.
  intros Hr Hu [= <-] [= <-]. pose proof (reachable_declared _ _ Hr) as Hd.
  split; [reflexivity|]. split; [reflexivity|]. split.
  - assert (get u "id" ≠ VNull) as Hid.
    { by apply (rows_not_null engine db User "id" u Hr); [solve_in|..]. }
    unfold load. simpl. rewrite filter_sql_eq_length, decide_False by done.
    destruct (declared_table db Admin Hd) as (ts & Hts & Hdef); [solve_in|].
    unfold rows_of. simpl in Hts. rewrite Hts. apply unique_on_count; [done|].
    apply (reachable_constraints_hold _ _ Hr "admins" ts ("admins_user_id_key", ["user_id"]));
      [done|].
    rewrite Hdef. vm_compute. solve_in.
  - exists (with_two_profiles engine), (new_row User 1 alice).
    split; [do 3 apply reachable_insert; constructor|].
    split; destruct engine as [[|]]; vm_compute; first [reflexivity|apply list_elem_of_here].
Qed.

(** X16, an instance: User.admin of Alice, an admin, holds at most one row. *)
Lemma user_collections_witness :
  (length (load with_admin User
             (mkRelationship "admin" "Admin" (Some "user") []) alice_row) ≤ 1)%nat.
Proof.
  destruct (user_collections enforcing with_admin alice_row
              (mkRelationship "admin" "Admin" (Some "user") [])
              (mkRelationship "profile" "Profile" (Some "user") []))
    as (_ & _ & Hle & _).
  - do 2 apply reachable_insert; constructor.
  - vm_compute; apply list_elem_of_here.
  - reflexivity.
  - reflexivity.
  - exact Hle.
Defined.
